(** * local-cache: the cache resolution and archival engine

    A shallow embedding of [src/cache/utils.ts], [src/cache/compression.ts]
    and [src/cache/localCache.ts], and the properties of key sanitisation,
    path parsing, cache-directory resolution and of the
    [save] / [restore] / [lookup] operations of [LocalCache].

    Conventions of the embedding.
    - A JavaScript string is its sequence of UTF-16 code units, [list N].
    - Node's [fs], [process], [@actions/io] and [@actions/exec] are a record
      of operations over an abstract machine state (see [Host]); every
      theorem of the engine holds for every such host.
    - Calls to the logger ([core.info], [core.debug], ...) neither branch
      nor touch the file system and are left out.
    - [path.join] and [path.dirname] are Node's POSIX versions.
    - A JavaScript number is an IEEE 754 binary64 value, [float]. *)

From Stdlib Require Import ZArith NArith Ascii String DecimalString.
From Stdlib Require Import Floats.PrimFloat Floats.FloatOps Floats.SpecFloat.
From stdpp Require Import base option list gmap.

Local Open Scope N_scope.

(** ** JavaScript strings *)

Abbreviation jsstring := (list N).

(** A string literal of the source, as code units. *)
Definition js (s : string) : jsstring := N_of_ascii <$> list_ascii_of_string s.

(** [String.prototype.split] with a one-code-unit separator: a string with
    [n] separators gives [n + 1] pieces, the empty string gives [[""]]. *)
Fixpoint split (sep : N) (s : jsstring) : list jsstring :=
  match s with
  | [] => [[]]
  | c :: s' =>
      if c =? sep then [] :: split sep s'
      else match split sep s' with
           | piece :: pieces => (c :: piece) :: pieces
           | [] => [[c]]
           end
  end.

(** [Array.prototype.join]. *)
Fixpoint array_join (sep : jsstring) (l : list jsstring) : jsstring :=
  match l with
  | [] => []
  | [s] => s
  | s :: l' => s ++ sep ++ array_join sep l'
  end.

(** The code units that [String.prototype.trim] strips: ECMAScript's
    WhiteSpace (TAB, VT, FF, SP, NBSP, ZWNBSP and the category Zs) and
    LineTerminator (LF, CR, LS, PS). *)
Definition is_whitespace (c : N) : bool :=
  (c =? 9) || (c =? 10) || (c =? 11) || (c =? 12) || (c =? 13) || (c =? 32)
  || (c =? 160) || (c =? 5760) || ((8192 <=? c) && (c <=? 8202))
  || (c =? 8232) || (c =? 8233) || (c =? 8239) || (c =? 8287)
  || (c =? 12288) || (c =? 65279).

Fixpoint drop_while {A} (f : A → bool) (l : list A) : list A :=
  match l with
  | [] => []
  | x :: l' => if f x then drop_while f l' else l
  end.

Definition trimStart (s : jsstring) : jsstring := drop_while is_whitespace s.
Definition trimEnd (s : jsstring) : jsstring :=
  reverse (drop_while is_whitespace (reverse s)).
Definition trim (s : jsstring) : jsstring := trimEnd (trimStart s).

(** The character class [[a-zA-Z0-9]] of the regular expression. *)
Definition is_alnum (c : N) : bool :=
  ((97 <=? c) && (c <=? 122)) || ((65 <=? c) && (c <=? 90))
  || ((48 <=? c) && (c <=? 57)).

Definition underscore : N := 95.

(** [key.replace(/[^a-zA-Z0-9]/g, '_')]: without the [u] flag the pattern
    matches single code units. *)
Definition safeKey (key : jsstring) : jsstring :=
  (λ c, if is_alnum c then c else underscore) <$> key.

(** ** Node's POSIX [path] module *)

Module path.

Definition slash : N := 47.
Definition dot : jsstring := js ".".
Definition dotdot : jsstring := js "..".

(** [normalizeString]: drops empty and [.] segments, and resolves [..]
    against the segment before it; [acc] is the result so far, last
    segment first. *)
Fixpoint normalizeSegments (allowAboveRoot : bool)
    (acc segs : list jsstring) : list jsstring :=
  match segs with
  | [] => reverse acc
  | seg :: segs' =>
      if bool_decide (seg = [] ∨ seg = dot) then
        normalizeSegments allowAboveRoot acc segs'
      else if bool_decide (seg = dotdot) then
        match acc with
        | top :: acc' =>
            if bool_decide (top = dotdot) then
              normalizeSegments allowAboveRoot
                (if allowAboveRoot then dotdot :: acc else acc) segs'
            else normalizeSegments allowAboveRoot acc' segs'
        | [] =>
            normalizeSegments allowAboveRoot
              (if allowAboveRoot then [dotdot] else []) segs'
        end
      else normalizeSegments allowAboveRoot (seg :: acc) segs'
  end.

Definition normalizeString (p : jsstring) (allowAboveRoot : bool) : jsstring :=
  array_join [slash] (normalizeSegments allowAboveRoot [] (split slash p)).

(** [path.normalize]. *)
Definition normalize (p : jsstring) : jsstring :=
  match p with
  | [] => dot
  | c :: _ =>
      let isAbsolute := c =? slash in
      let trailingSeparator :=
        match last p with Some d => d =? slash | None => false end in
      let q := normalizeString p (negb isAbsolute) in
      match q with
      | [] =>
          if isAbsolute then [slash]
          else if trailingSeparator then js "./" else dot
      | _ =>
          let q' := if trailingSeparator then q ++ [slash] else q in
          if isAbsolute then slash :: q' else q'
      end
  end.

(** [path.join(...args)]. *)
Definition join (args : list jsstring) : jsstring :=
  match filter (λ a, a ≠ []) args with
  | [] => dot
  | parts => normalize (array_join [slash] parts)
  end.

(** [path.dirname]: scans from the end, down to index 1, for the last
    separator that follows a non-separator; [end_] is its index. *)
Definition dirname (p : jsstring) : jsstring :=
  match p with
  | [] => dot
  | c :: body =>
      let hasRoot := c =? slash in
      let rest :=
        drop_while (λ d, negb (d =? slash))
          (drop_while (λ d, d =? slash) (reverse body)) in
      match rest with
      | [] => if hasRoot then [slash] else dot
      | _ =>
          let end_ := length rest in
          if hasRoot && (end_ =? 1)%nat then js "//" else take end_ p
      end
  end.

End path.

(** The code unit of ["\n"]. *)
Definition newline : N := 10.

(** [resolvePaths] of [utils.ts]. *)
Definition resolvePaths (pathInput : jsstring) : list jsstring :=
  filter (λ s, s ≠ []) (trim <$> split newline pathInput).

(** ** Vocabulary of the string properties *)

(** Made of whitespace only (the empty string included). *)
Definition blank (s : jsstring) : Prop := Forall (λ c, is_whitespace c = true) s.

(** [t] is [l] without its leading and trailing whitespace. *)
Definition is_trim_of (t l : jsstring) : Prop :=
  (∃ pre post, l = pre ++ t ++ post ∧ blank pre ∧ blank post)
  ∧ (∀ c, head t = Some c → is_whitespace c = false)
  ∧ (∀ c, last t = Some c → is_whitespace c = false).

(** The 62 characters of [[A-Za-z0-9]]. *)
Definition alnum_chars : jsstring :=
  js "abcdefghijklmnopqrstuvwxyzABCDEFGHIJKLMNOPQRSTUVWXYZ0123456789".

(** ** Exceptions, machine state and the call trace *)

(** A thrown [Error], by its message. *)
Definition Err : Type := jsstring.

Inductive Result (A : Type) : Type :=
| Ok (a : A)
| Throw (e : Err).
Arguments Ok {A} a.
Arguments Throw {A} e.

(** What a run leaves behind for an observer that tracks calls, as the
    test doubles of the test-suite do: the calls into the host, and the
    entries into the two codec functions. *)
Inductive Event : Type :=
| EvExistsSync (p : jsstring)
| EvMkdirSync (p : jsstring)
| EvAccessSync (p : jsstring)
| EvCwd
| EvWhich (tool : jsstring)
| EvExec (commandLine : jsstring) (args : list jsstring)
| EvCompress (archivePath : jsstring) (paths : list jsstring) (level : float)
| EvDecompress (archivePath targetDir : jsstring).

(** The host: [process.env], [fs.existsSync] (which never throws and
    changes nothing), [fs.mkdirSync(p, {recursive: true})],
    [fs.accessSync(p, W_OK)], [process.cwd()], [io.which(tool, true)] and
    [exec.exec(commandLine, args)]; and [ToString_number], the string a
    template literal gives for a number, which the engine only passes
    on to [tar]. *)
Record Host (state : Type) : Type := {
  env : state → string → option jsstring;
  fs_existsSync : jsstring → state → bool;
  fs_mkdirSync : jsstring → state → Result unit * state;
  fs_accessSync : jsstring → state → Result unit * state;
  process_cwd : state → Result jsstring * state;
  io_which : jsstring → state → Result jsstring * state;
  exec_exec : jsstring → list jsstring → state → Result Z * state;
  ToString_number : float → jsstring
}.
Arguments env {state} _ _ _.
Arguments fs_existsSync {state} _ _ _.
Arguments fs_mkdirSync {state} _ _ _.
Arguments fs_accessSync {state} _ _ _.
Arguments process_cwd {state} _ _.
Arguments io_which {state} _ _ _.
Arguments exec_exec {state} _ _ _ _.
Arguments ToString_number {state} _ _.

(** A computation: from a machine state to a returned value or a thrown
    error, the new state, and the events of the run in order. *)
Definition M (state A : Type) : Type := state → Result A * state * list Event.

Definition value {state A} (r : Result A * state * list Event) : Result A := r.1.1.
Definition final {state A} (r : Result A * state * list Event) : state := r.1.2.
Definition trace {state A} (r : Result A * state * list Event) : list Event := r.2.

Definition ret {state A} (a : A) : M state A := λ s, (Ok a, s, []).
Definition throw {state A} (e : Err) : M state A := λ s, (Throw e, s, []).

Definition bind {state A B} (m : M state A) (k : A → M state B) : M state B :=
  λ s, match m s with
       | (Ok a, s1, t1) => let '(r, s2, t2) := k a s1 in (r, s2, t1 ++ t2)
       | (Throw e, s1, t1) => (Throw e, s1, t1)
       end.

(** [try { m } catch (err) { handler err }] *)
Definition try_catch {state A} (m : M state A) (handler : Err → M state A) : M state A :=
  λ s, match m s with
       | (Ok a, s1, t1) => (Ok a, s1, t1)
       | (Throw e, s1, t1) => let '(r, s2, t2) := handler e s1 in (r, s2, t1 ++ t2)
       end.

Definition emit {state} (e : Event) : M state unit := λ s, (Ok (), s, [e]).

Notation "'let!' x ':=' m 'in' k" := (bind m (λ x, k))
  (at level 10, x name, m at level 100, k at level 200,
   format "'[v' 'let!'  x  ':='  m  'in' '/' k ']'").
Notation "m ';;;' k" := (bind m (λ _, k))
  (at level 100, k at level 200, right associativity).

(** [a || b] on strings: the empty string and [undefined] are falsy. *)
Definition or_else (a : option jsstring) (b : jsstring) : jsstring :=
  match a with
  | Some (c :: a') => c :: a'
  | _ => b
  end.

Record RestoreResult : Type := mkRestoreResult {
  restore_cacheHit : bool;
  restoredKey : option jsstring
}.

Record LookupResult : Type := mkLookupResult {
  lookup_cacheHit : bool;
  matchedKey : option jsstring
}.

Section Engine.
Context {state : Type} (host : Host state).

Local Abbreviation M := (M state).

(** *** The host operations as computations *)

Definition getenv (name : string) : M (option jsstring) :=
  λ s, (Ok (env host s name), s, []).

Definition existsSync (p : jsstring) : M bool :=
  λ s, (Ok (fs_existsSync host p s), s, [EvExistsSync p]).

Definition mkdirSync (p : jsstring) : M unit :=
  λ s, (fs_mkdirSync host p s, [EvMkdirSync p]).

Definition accessSync (p : jsstring) : M unit :=
  λ s, (fs_accessSync host p s, [EvAccessSync p]).

Definition cwd : M jsstring :=
  λ s, (process_cwd host s, [EvCwd]).

Definition which (tool : jsstring) : M jsstring :=
  λ s, (io_which host tool s, [EvWhich tool]).

Definition exec (commandLine : jsstring) (args : list jsstring) : M Z :=
  λ s, (exec_exec host commandLine args s, [EvExec commandLine args]).

(** *** utils.ts *)

Definition getCacheDir : M jsstring :=
  let! tool_cache := getenv "RUNNER_TOOL_CACHE" in
  let! home := getenv "HOME" in
  let cacheDir :=
    or_else tool_cache
      (path.join [or_else home (js "/tmp"); js ".local-cache"]) in
  let! present := existsSync cacheDir in
  (if negb present then mkdirSync cacheDir else ret ());;;
  ret cacheDir.

Definition getCacheFilePath (key : jsstring) : M jsstring :=
  let! dir := getCacheDir in
  ret (path.join [dir; safeKey key ++ js ".tar.zst"]).

Definition cacheExists (key : jsstring) : M bool :=
  let! cachePath := getCacheFilePath key in
  existsSync cachePath.

(** *** compression.ts *)

Definition compressWithZstd (archivePath : jsstring) (paths : list jsstring)
    (compressionLevel : float) : M bool :=
  emit (EvCompress archivePath paths compressionLevel);;;
  try_catch
    (which (js "tar");;;
     let! zstdPath := try_catch (which (js "zstd")) (λ err, throw err) in
     let archiveDir := path.dirname archivePath in
     let! present := existsSync archiveDir in
     (if negb present then mkdirSync archiveDir else ret ());;;
     let fileArgs := paths in
     let tarArgs :=
       [js "--use-compress-program";
        zstdPath ++ js " -" ++ ToString_number host compressionLevel;
        js "-cf"; archivePath; js "-P"] ++ fileArgs in
     let! exitCode := exec (js "tar") tarArgs in
     if negb (exitCode =? 0)%Z then ret false else ret true)
    (λ err, ret false).

Definition decompressWithZstd (archivePath targetDir : jsstring) : M bool :=
  emit (EvDecompress archivePath targetDir);;;
  try_catch
    (which (js "tar");;;
     let! zstdPath := try_catch (which (js "zstd")) (λ err, throw err) in
     let! present := existsSync archivePath in
     if negb present then ret false
     else
       let! target_present := existsSync targetDir in
       let! targetDir :=
         (if negb target_present then
            try_catch (mkdirSync targetDir;;; ret targetDir) (λ err, cwd)
          else ret targetDir) in
       let! targetDir :=
         try_catch (accessSync targetDir;;; ret targetDir)
           (λ err,
              let! tempDir := getenv "RUNNER_TEMP" in
              ret (or_else tempDir (js "/tmp"))) in
       let tarArgs :=
         [js "--use-compress-program"; zstdPath; js "-xf"; archivePath;
          js "-C"; targetDir] in
       let! exitCode := exec (js "tar") tarArgs in
       if negb (exitCode =? 0)%Z then ret false else ret true)
    (λ err, ret false).

(** *** localCache.ts *)

(** [paths.filter((p) => fs.existsSync(p))] *)
Fixpoint filter_existsSync (paths : list jsstring) : M (list jsstring) :=
  match paths with
  | [] => ret []
  | p :: paths' =>
      let! present := existsSync p in
      let! rest := filter_existsSync paths' in
      ret (if present then p :: rest else rest)
  end.

(** The body of the [try] block of [LocalCache.save]. *)
Definition save_try (paths : list jsstring) (key : jsstring)
    (compressionLevel : float) : M bool :=
  let! existingPaths := filter_existsSync paths in
  if (length existingPaths =? 0)%nat then ret false
  else
    let! cachePath := getCacheFilePath key in
    let! success := compressWithZstd cachePath existingPaths compressionLevel in
    if success then ret true else ret false.

(** [LocalCache.save]; [compressionLevel] defaults to 3 at the call. *)
Definition save (paths : list jsstring) (key : jsstring)
    (compressionLevel : float) : M bool :=
  try_catch (save_try paths key compressionLevel) (λ err, ret false).

(** The [for (const restoreKey of restoreKeys)] loop of [restore],
    followed by the code after it. *)
Fixpoint restore_for (restoreKeys : list jsstring) (targetDir : jsstring)
    : M RestoreResult :=
  match restoreKeys with
  | [] => ret (mkRestoreResult false None)
  | restoreKey :: rest =>
      let! present := cacheExists restoreKey in
      if present then
        let! cachePath := getCacheFilePath restoreKey in
        let! success := decompressWithZstd cachePath targetDir in
        if success then ret (mkRestoreResult false (Some restoreKey))
        else restore_for rest targetDir
      else restore_for rest targetDir
  end.

(** The body of the [try] block of [LocalCache.restore]. *)
Definition restore_try (paths : list jsstring) (primaryKey : jsstring)
    (restoreKeys : list jsstring) (targetDir : jsstring) : M RestoreResult :=
  let! present := cacheExists primaryKey in
  if present then
    let! cachePath := getCacheFilePath primaryKey in
    let! success := decompressWithZstd cachePath targetDir in
    if success then ret (mkRestoreResult true (Some primaryKey))
    else restore_for restoreKeys targetDir
  else restore_for restoreKeys targetDir.

(** [LocalCache.restore]; [restoreKeys] defaults to [[]] and [targetDir]
    to ["/"] at the call. *)
Definition restore (paths : list jsstring) (primaryKey : jsstring)
    (restoreKeys : list jsstring) (targetDir : jsstring) : M RestoreResult :=
  try_catch (restore_try paths primaryKey restoreKeys targetDir)
    (λ err, ret (mkRestoreResult false None)).

(** The [for] loop of [lookup], followed by the code after it. *)
Fixpoint lookup_for (restoreKeys : list jsstring) : M LookupResult :=
  match restoreKeys with
  | [] => ret (mkLookupResult false None)
  | restoreKey :: rest =>
      let! present := cacheExists restoreKey in
      if present then ret (mkLookupResult false (Some restoreKey))
      else lookup_for rest
  end.

(** The body of the [try] block of [LocalCache.lookup]. *)
Definition lookup_try (primaryKey : jsstring) (restoreKeys : list jsstring)
    : M LookupResult :=
  let! present := cacheExists primaryKey in
  if present then ret (mkLookupResult true (Some primaryKey))
  else lookup_for restoreKeys.

(** [LocalCache.lookup]. *)
Definition lookup (primaryKey : jsstring) (restoreKeys : list jsstring)
    : M LookupResult :=
  try_catch (lookup_try primaryKey restoreKeys)
    (λ err, ret (mkLookupResult false None)).

End Engine.

Arguments getCacheDir {state} host.
Arguments getCacheFilePath {state} host key.
Arguments cacheExists {state} host key.
Arguments compressWithZstd {state} host archivePath paths compressionLevel.
Arguments decompressWithZstd {state} host archivePath targetDir.
Arguments save_try {state} host paths key compressionLevel.
Arguments save {state} host paths key compressionLevel.
Arguments restore_for {state} host restoreKeys targetDir.
Arguments restore_try {state} host paths primaryKey restoreKeys targetDir.
Arguments restore {state} host paths primaryKey restoreKeys targetDir.
Arguments lookup_for {state} host restoreKeys.
Arguments lookup_try {state} host primaryKey restoreKeys.
Arguments lookup {state} host primaryKey restoreKeys.

(** ** Vocabulary of the properties *)

(** The directory [getCacheDir] resolves to in state [s]. *)
Definition resolvedCacheDir {state} (host : Host state) (s : state) : jsstring :=
  or_else (env host s "RUNNER_TOOL_CACHE")
    (path.join [or_else (env host s "HOME") (js "/tmp"); js ".local-cache"]).

(** One restore attempt on one key: its archive exists and decompresses
    successfully. *)
Definition tryRestore {state} (host : Host state) (targetDir key : jsstring)
    : M state bool :=
  let! present := cacheExists host key in
  if present then
    let! cachePath := getCacheFilePath host key in
    decompressWithZstd host cachePath targetDir
  else ret false.

(** The runs of [step] on the keys of a list one after the other, each
    from the state the one before it left. *)
Fixpoint runs {state A} (step : jsstring → M state A) (keys : list jsstring)
    (s : state) : list (Result A * state * list Event) :=
  match keys with
  | [] => []
  | k :: keys' => let r := step k s in r :: runs step keys' (final r)
  end.

(** A run that returned [false]: the key was tried and did not match. *)
Definition missed {state} (r : Result bool * state * list Event) : bool :=
  match value r with
  | Ok false => true
  | _ => false
  end.

(** The number of runs before the first one that is not a miss. *)
Fixpoint misses {state} (rs : list (Result bool * state * list Event)) : nat :=
  match rs with
  | [] => 0
  | r :: rs' => if missed r then S (misses rs') else 0
  end.

(** The state a sequence of runs started in [s] ends in. *)
Definition state_after {state A} (s : state)
    (rs : list (Result A * state * list Event)) : state :=
  default s (last (final <$> rs)).

Definition trace_of {state A} (rs : list (Result A * state * list Event))
    : list Event :=
  concat (trace <$> rs).

Definition is_codec_call (e : Event) : bool :=
  match e with
  | EvCompress _ _ _ | EvDecompress _ _ => true
  | _ => false
  end.

(** The entries into [compressWithZstd] and [decompressWithZstd] of a trace. *)
Definition codec_calls (t : list Event) : list Event :=
  List.filter is_codec_call t.

Definition is_existsSync (e : Event) : bool :=
  match e with
  | EvExistsSync _ => true
  | _ => false
  end.

Definition is_store_call (e : Event) : bool :=
  match e with
  | EvExistsSync _ | EvMkdirSync _ => true
  | _ => false
  end.

(** An operation that wraps [body] in [try]/[catch] and returns
    [fallback] from the handler. *)
Definition caught_as {state A} (fallback : A)
    (body op : Result A * state * list Event) : Prop :=
  match body with
  | (Ok a, s', t) => op = (Ok a, s', t)
  | (Throw _, s', t) => op = (Ok fallback, s', t)
  end.

(** What a scan over [keys] found, from the runs of its attempts [rs]:
    the position and the key of the first attempt that is not a miss, when
    that attempt returned [true]. A scan that runs out of keys, or whose
    first attempt that is not a miss threw, found nothing. *)
Definition first_success {state} (keys : list jsstring)
    (rs : list (Result bool * state * list Event)) : option (nat * jsstring) :=
  match keys !! misses rs, value <$> rs !! misses rs with
  | Some key, Some (Ok true) => Some (misses rs, key)
  | _, _ => None
  end.

(** The error of the first attempt that is not a miss, if it threw. *)
Definition stopped {state} (rs : list (Result bool * state * list Event))
    : option Err :=
  match value <$> rs !! misses rs with
  | Some (Throw e) => Some e
  | _ => None
  end.

(** The attempts a scan makes: the misses and the attempt after them. *)
Definition made {state} (rs : list (Result bool * state * list Event))
    : list (Result bool * state * list Event) :=
  take (S (misses rs)) rs.

(** The result of an operation whose scan found [found]: a hit only for
    the key at position 0, the primary key. *)
Definition report {R} (mk : bool → option jsstring → R)
    (found : option (nat * jsstring)) : R :=
  match found with
  | Some (n, key) => mk (n =? 0)%nat (Some key)
  | None => mk false None
  end.

(** The frame property of [lookup] as the specification words it:
    the machine is left as it was, and the codec is not entered. *)
Definition lookup_leaves_untouched {state} (host : Host state)
    (primaryKey : jsstring) (restoreKeys : list jsstring) (s : state) : Prop :=
  final (lookup host primaryKey restoreKeys s) = s
  ∧ codec_calls (trace (lookup host primaryKey restoreKeys s)) = [].

(** An event that is not an entry into the codec, or is a decompression
    into [targetDir]. *)
Definition extracts_into (targetDir : jsstring) (e : Event) : Prop :=
  match e with
  | EvDecompress _ target => target = targetDir
  | EvCompress _ _ _ => False
  | _ => True
  end.

(** ** [Number::toString]

    The string of a number, radix 10, as ECMAScript defines it: the
    shortest decimal [s * 10^(n-k)], of [k] digits, that reads back as
    the number, printed plainly for [-6 < n <= 21] and with an exponent
    otherwise. *)

Module Number.
Local Open Scope Z_scope.

(** The decimal digits of a natural number. *)
Definition digits (n : Z) : jsstring :=
  js (NilEmpty.string_of_uint (N.to_uint (Z.to_N n))).

(** [n] times the digit 0. *)
Definition zeros (n : Z) : jsstring := replicate (Z.to_nat n) 48%N.

(** [s * 10^p] compared with [b * 2^q]. *)
Definition compare_scaled (s p b q : Z) : comparison :=
  s * 10 ^ Z.max p 0 * 2 ^ Z.max (- q) 0 ?= b * 2 ^ Z.max q 0 * 10 ^ Z.max (- p) 0.

(** The least exponent from [n] on with [m * 2^e < 10^n]. *)
Fixpoint magnitude (fuel : nat) (m e n : Z) : Z :=
  match fuel with
  | O => n
  | S fuel' =>
      match compare_scaled 1 n m e with
      | Gt => n
      | _ => magnitude fuel' m e (n + 1)
      end
  end.

(** The [k]-digit decimals [s * 10^(n-k)] next to [x = m * 2^e], where
    [10^(n-1) <= x < 10^n]: the one below and the one above. Such a
    decimal reads back as [x] when it lies between the midpoints to the
    neighbours of [x] (a midpoint itself reads back as [x] when [m] is
    even; the neighbour below a power of two is at half the distance). Of
    two that do, the closer to [x] is taken, the even one on a tie. *)
Definition candidate (m e n k : Z) : option (Z * Z) :=
  let p := n - k in
  let lower := if (m =? 2 ^ 52) && (-1074 <? e) then 4 * m - 1 else 4 * m - 2 in
  let upper := 4 * m + 2 in
  let s1 := (m * 2 ^ Z.max e 0 * 10 ^ Z.max (- p) 0)
            / (2 ^ Z.max (- e) 0 * 10 ^ Z.max p 0) in
  let s2 := s1 + 1 in
  let ok1 := match compare_scaled s1 p lower (e - 2) with
             | Gt => true | Eq => Z.even m | Lt => false
             end in
  let ok2 := match compare_scaled s2 p upper (e - 2) with
             | Lt => true | Eq => Z.even m | Gt => false
             end in
  let below := Some (s1, n) in
  let above := Some (if s2 =? 10 ^ k then (10 ^ (k - 1), n + 1) else (s2, n)) in
  match ok1, ok2 with
  | true, true =>
      match compare_scaled (2 * s1 + 1) p (2 * m) e with
      | Gt => below
      | Lt => above
      | Eq => if Z.even s1 then below else above
      end
  | true, false => below
  | false, true => above
  | false, false => None
  end.

(** The least number of digits [k], from [k] on, with such a decimal;
    17 digits always have one. *)
Fixpoint shortest (fuel : nat) (m e n k : Z) : Z * Z * Z :=
  match fuel with
  | O => (0, n, k)
  | S fuel' =>
      match candidate m e n k with
      | Some (s, n') => (s, n', k)
      | None => shortest fuel' m e n (k + 1)
      end
  end.

(** Steps 5 to 10 of [Number::toString], for [x = m * 2^e] positive. The
    search for [n] starts below [log10 x]: [30103 / 100000] exceeds
    [log10 2] by less than [10^-8]. *)
Definition finite_toString (m e : Z) : jsstring :=
  let start := (e + Z.log2 m) * 30103 / 100000 - 1 in
  let '(s, n, k) := shortest 17 m e (magnitude 8 m e start) 1 in
  let ds := digits s in
  if (k <=? n) && (n <=? 21) then ds ++ zeros (n - k)
  else if (0 <? n) && (n <=? 21) then
    take (Z.to_nat n) ds ++ js "." ++ drop (Z.to_nat n) ds
  else if (-6 <? n) && (n <=? 0) then js "0." ++ zeros (- n) ++ ds
  else
    let exponent :=
      js "e" ++ (if 0 <? n - 1 then js "+" else js "-") ++ digits (Z.abs (n - 1)) in
    if k =? 1 then ds ++ exponent
    else take 1 ds ++ js "." ++ drop 1 ds ++ exponent.

Definition toString (x : float) : jsstring :=
  match Prim2SF x with
  | S754_nan => js "NaN"
  | S754_zero _ => js "0"
  | S754_infinity false => js "Infinity"
  | S754_infinity true => js "-Infinity"
  | S754_finite sign m e =>
      (if sign then js "-" else []) ++ finite_toString (Z.pos m) e
  end.

End Number.

(** ** A simulated machine

    A small concrete host on which the operations can be run: a set of
    existing paths, a set of directories that can be neither created nor
    written, the tools on [PATH], and the archives [tar] fails on. *)

Module Sim.

Record machine : Type := mkMachine {
  vars : list (string * jsstring);
  files : list jsstring;
  denied : list jsstring;
  tools : list jsstring;
  corrupt : list jsstring;
  workdir : jsstring
}.

Fixpoint assoc (name : string) (l : list (string * jsstring)) : option jsstring :=
  match l with
  | [] => None
  | (n, v) :: l' => if String.eqb n name then Some v else assoc name l'
  end.

Definition mem (p : jsstring) (l : list jsstring) : bool := bool_decide (p ∈ l).

(** [p] and the directories above it. *)
Fixpoint ancestors (fuel : nat) (p : jsstring) : list jsstring :=
  match fuel with
  | O => [p]
  | S fuel' =>
      let d := path.dirname p in
      if bool_decide (d = p) then [p] else p :: ancestors fuel' d
  end.

Definition add_all (ps : list jsstring) (l : list jsstring) : list jsstring :=
  List.filter (λ p, negb (mem p l)) ps ++ l.

Definition mkdir (p : jsstring) (m : machine) : Result unit * machine :=
  if existsb (λ d, mem d (denied m)) (ancestors (length p) p)
  then (Throw (js "EACCES: permission denied, mkdir"), m)
  else (Ok (), mkMachine (vars m) (add_all (ancestors (length p) p) (files m))
                 (denied m) (tools m) (corrupt m) (workdir m)).

Definition access (p : jsstring) (m : machine) : Result unit * machine :=
  if mem p (denied m) then (Throw (js "EACCES: permission denied, access"), m)
  else (Ok (), m).

Definition which (tool : jsstring) (m : machine) : Result jsstring * machine :=
  if mem tool (tools m) then (Ok (js "/usr/bin/" ++ tool), m)
  else (Throw (js "Unable to locate executable file"), m).

(** [tar -cf archive ...] writes the archive, [tar -xf archive ...] fails
    on a corrupt one; [exec.exec] rejects on a non-zero exit code. *)
Definition run_tar (commandLine : jsstring) (args : list jsstring) (m : machine)
    : Result Z * machine :=
  match args with
  | _ :: _ :: flag :: archive :: _ =>
      if bool_decide (flag = js "-cf") then
        (Ok 0%Z, mkMachine (vars m) (add_all [archive] (files m)) (denied m)
                   (tools m) (corrupt m) (workdir m))
      else if mem archive (corrupt m) then
        (Throw (js "The process '/usr/bin/tar' failed with exit code 2"), m)
      else (Ok 0%Z, m)
  | _ => (Ok 0%Z, m)
  end.

Definition host : Host machine := {|
  env := λ m name, assoc name (vars m);
  fs_existsSync := λ p m, mem p (files m);
  fs_mkdirSync := mkdir;
  fs_accessSync := access;
  process_cwd := λ m, (Ok (workdir m), m);
  io_which := which;
  exec_exec := run_tar;
  ToString_number := Number.toString
|}.

(** A fresh runner: no environment, only the root and [/tmp]. *)
Definition fresh : machine :=
  mkMachine [] [js "/"; js "/tmp"] [] [js "tar"; js "zstd"] [] (js "/work").

(** A runner whose cache directory holds archives for the keys [a] and [b],
    the first of them corrupt; [/ro] cannot be written. *)
Definition warm : machine :=
  mkMachine [("HOME"%string, js "/home/ci")]
    [js "/"; js "/tmp"; js "/home"; js "/home/ci"; js "/home/ci/.local-cache";
     js "/home/ci/.local-cache/a.tar.zst"; js "/home/ci/.local-cache/b.tar.zst";
     js "/work"; js "/work/node_modules"]
    [js "/ro"] [js "tar"; js "zstd"]
    [js "/home/ci/.local-cache/a.tar.zst"] (js "/work").

(** A runner whose tool cache lies below a directory that cannot be written. *)
Definition locked : machine :=
  mkMachine [("RUNNER_TOOL_CACHE"%string, js "/ro/cache")]
    [js "/"; js "/ro"; js "/work"; js "/work/node_modules"]
    [js "/ro"] [js "tar"; js "zstd"] [] (js "/work").

End Sim.

(** ** Further vocabulary *)

(** A plain file name for [path.join]: not empty, without separator, and
    neither ["."] nor [".."]. *)
Definition ordinary (f : jsstring) : Prop :=
  f ≠ [] ∧ (path.slash ∉ f) ∧ f ≠ path.dot ∧ f ≠ path.dotdot.

(** The file name of the archive of a key. *)
Definition archiveName (key : jsstring) : jsstring :=
  safeKey key ++ js ".tar.zst".

(** The state after [io.which] found both [tar] and [zstd], with the
    path of [zstd]; the first two steps of both codec functions. *)
Definition tools_found {state} (host : Host state) (s : state)
    : option (jsstring * state) :=
  match io_which host (js "tar") s with
  | (Ok _, s1) =>
      match io_which host (js "zstd") s1 with
      | (Ok zstdPath, s2) => Some (zstdPath, s2)
      | (Throw _, _) => None
      end
  | (Throw _, _) => None
  end.

(** The state after [io.which] failed to find [tar], or found [tar] and
    failed to find [zstd], with the lookups made. *)
Definition tool_missing {state} (host : Host state) (s : state)
    : option (state * list Event) :=
  match io_which host (js "tar") s with
  | (Ok _, s1) =>
      match io_which host (js "zstd") s1 with
      | (Ok _, _) => None
      | (Throw _, s2) => Some (s2, [EvWhich (js "tar"); EvWhich (js "zstd")])
      end
  | (Throw _, s1) => Some (s1, [EvWhich (js "tar")])
  end.

(** The arguments of the [tar] command that extracts [archivePath] into
    [dir], and of the one that writes it from [paths]. *)
Definition extractArgs (zstdPath archivePath dir : jsstring) : list jsstring :=
  [js "--use-compress-program"; zstdPath; js "-xf"; archivePath; js "-C"; dir].

Definition createArgs {state} (host : Host state) (zstdPath : jsstring)
    (level : float) (archivePath : jsstring) (paths : list jsstring)
    : list jsstring :=
  [js "--use-compress-program";
   zstdPath ++ js " -" ++ ToString_number host level;
   js "-cf"; archivePath; js "-P"] ++ paths.

(** Zero is the exit code of a command that succeeded. *)
Definition exited_zero (r : Result Z) : bool :=
  match r with
  | Ok code => (code =? 0)%Z
  | Throw _ => false
  end.

(** A runner without [zstd]. *)
Definition bare : Sim.machine :=
  Sim.mkMachine [("HOME"%string, js "/home/ci")]
    [js "/"; js "/tmp"; js "/home"; js "/home/ci"; js "/home/ci/.local-cache";
     js "/home/ci/.local-cache/a.tar.zst"; js "/work"]
    [] [js "tar"] [] (js "/work").

(** A runner with an archive for [b] and a workspace [/ro] that exists but
    cannot be written. *)
Definition sealed : Sim.machine :=
  Sim.mkMachine [("HOME"%string, js "/home/ci"); ("RUNNER_TEMP"%string, js "/runner/tmp")]
    [js "/"; js "/tmp"; js "/ro"; js "/home"; js "/home/ci";
     js "/home/ci/.local-cache"; js "/home/ci/.local-cache/b.tar.zst"; js "/work"]
    [js "/ro"] [js "tar"; js "zstd"] [] (js "/work").

(** ** The actions: [restore.ts] and [main.ts]

    The entry points read their inputs through [@actions/core] and leave
    outputs, a failure or saved state with it. The inputs are a parameter;
    what is left with [@actions/core] is recorded beside the machine
    state, these calls being taken to return. [parseInt] and
    [Number.prototype.toString] are parameters too. *)

(** [core.setOutput], [core.setFailed] and [core.saveState]. *)
Inductive CoreCall : Type :=
| SetOutput (name : string) (value : jsstring)
| SetFailed (message : jsstring)
| SaveState (name : string) (value : jsstring).

(** [core.getInput(name, {required})], which throws for a required input
    that is not supplied, and [core.getBooleanInput(name)], which throws
    for a value that is not a boolean. *)
Record ActionInputs : Type := {
  getInput : string → bool → Result jsstring;
  getBooleanInput : string → Result bool
}.

(** The host of an action: the machine, and the calls made so far. *)
Definition with_calls {state} (host : Host state) : Host (state * list CoreCall) := {|
  env := λ sc name, env host sc.1 name;
  fs_existsSync := λ p sc, fs_existsSync host p sc.1;
  fs_mkdirSync := λ p sc, let '(r, s') := fs_mkdirSync host p sc.1 in (r, (s', sc.2));
  fs_accessSync := λ p sc, let '(r, s') := fs_accessSync host p sc.1 in (r, (s', sc.2));
  process_cwd := λ sc, let '(r, s') := process_cwd host sc.1 in (r, (s', sc.2));
  io_which := λ tool sc, let '(r, s') := io_which host tool sc.1 in (r, (s', sc.2));
  exec_exec := λ commandLine args sc,
    let '(r, s') := exec_exec host commandLine args sc.1 in (r, (s', sc.2));
  ToString_number := ToString_number host
|}.

Definition core_call {state} (c : CoreCall) : M (state * list CoreCall) unit :=
  λ sc, (Ok (), (sc.1, sc.2 ++ [c]), []).

(** The read of an input. *)
Definition input {state A} (r : Result A) : M state A := λ s, (r, s, []).

(** A string in a condition: the empty string is falsy. *)
Definition truthy (a : jsstring) : bool :=
  match a with
  | [] => false
  | _ :: _ => true
  end.

(** [b.toString()] for a boolean. *)
Definition Boolean_toString (b : bool) : jsstring :=
  if b then js "true" else js "false".

(** The list of restore keys, as both entry points compute it. *)
Definition restoreKeysList_of (restoreKeys : jsstring) : list jsstring :=
  if truthy restoreKeys
  then filter (λ s, s ≠ []) (trim <$> split newline restoreKeys)
  else [].

Module restore_ts.
Section Run.
Context {state : Type} (host : Host state) (inputs : ActionInputs).

(** [run] of [restore.ts]. *)
Definition run : M (state * list CoreCall) unit :=
  try_catch
    (let! path := input (getInput inputs "path" true) in
     let! key := input (getInput inputs "key" true) in
     let! restoreKeys := input (getInput inputs "restore-keys" false) in
     let! failOnCacheMiss := input (getBooleanInput inputs "fail-on-cache-miss") in
     let! lookupOnly := input (getBooleanInput inputs "lookup-only") in
     let paths := resolvePaths path in
     let restoreKeysList := restoreKeysList_of restoreKeys in
     if lookupOnly then
       let! result := lookup (with_calls host) key restoreKeysList in
       let cacheHit := lookup_cacheHit result in
       core_call (SetOutput "cache-hit" (Boolean_toString cacheHit));;;
       core_call (SetOutput "cache-primary-key" key);;;
       if failOnCacheMiss && negb cacheHit
       then core_call (SetFailed (js "No matching cache found"))
       else ret ()
     else
       let! workspace := getenv (with_calls host) "GITHUB_WORKSPACE" in
       let! workspaceDir :=
         (match workspace with
          | Some (c :: w) => ret (c :: w)
          | _ => cwd (with_calls host)
          end) in
       let! result :=
         restore (with_calls host) paths key restoreKeysList workspaceDir in
       let cacheHit := restore_cacheHit result in
       core_call (SetOutput "cache-hit" (Boolean_toString cacheHit));;;
       core_call (SetOutput "cache-primary-key" key);;;
       if cacheHit then ret ()
       else if truthy (default [] (restoredKey result)) then ret ()
       else if failOnCacheMiss
            then core_call (SetFailed (js "No matching cache found"))
            else ret ())
    (λ err, core_call (SetFailed (js "Action failed: " ++ err))).

End Run.
End restore_ts.

Module main_ts.
Section Run.
Context {state : Type} (host : Host state) (inputs : ActionInputs).
Context {number : Type} (parseInt : jsstring → Z → number).
Context (Number_toString : number → jsstring).

(** [run] of [main.ts]; it calls [restore] without a target directory,
    which is then ["/"]. *)
Definition run : M (state * list CoreCall) unit :=
  try_catch
    (let! path := input (getInput inputs "path" true) in
     let! key := input (getInput inputs "key" true) in
     let! restoreKeys := input (getInput inputs "restore-keys" false) in
     let! level := input (getInput inputs "compression-level" false) in
     let compressionLevel := parseInt (or_else (Some level) (js "3")) 10%Z in
     let! failOnCacheMiss := input (getBooleanInput inputs "fail-on-cache-miss") in
     let! lookupOnly := input (getBooleanInput inputs "lookup-only") in
     let paths := resolvePaths path in
     let restoreKeysList := restoreKeysList_of restoreKeys in
     if lookupOnly then
       let! result := lookup (with_calls host) key restoreKeysList in
       let cacheHit := lookup_cacheHit result in
       core_call (SetOutput "cache-hit" (Boolean_toString cacheHit));;;
       core_call (SetOutput "cache-primary-key" key);;;
       if failOnCacheMiss && negb cacheHit
       then core_call (SetFailed (js "No matching cache found"))
       else ret ()
     else
       let! result :=
         restore (with_calls host) paths key restoreKeysList (js "/") in
       let cacheHit := restore_cacheHit result in
       core_call (SetOutput "cache-hit" (Boolean_toString cacheHit));;;
       core_call (SetOutput "cache-primary-key" key);;;
       if cacheHit then ret ()
       else if truthy (default [] (restoredKey result)) then ret ()
       else if failOnCacheMiss
            then core_call (SetFailed (js "No matching cache found"))
            else
              core_call (SaveState "CACHE_KEY" key);;;
              core_call (SaveState "CACHE_PATH" path);;;
              core_call (SaveState "CACHE_COMPRESSION_LEVEL"
                           (Number_toString compressionLevel)))
    (λ err, core_call (SetFailed (js "Action failed: " ++ err))).

End Run.
End main_ts.

(** A base run, seen on the host of an action whose calls so far are [l]. *)
Definition lift_run {state A} (l : list CoreCall)
    (r : Result A * state * list Event)
    : Result A * (state * list CoreCall) * list Event :=
  (value r, (final r, l), trace r).

(** A computation of an action that is the base computation [m] and
    leaves the calls alone. *)
Definition sim {state A} (m' : M (state * list CoreCall) A) (m : M state A)
    : Prop :=
  ∀ s l, m' (s, l) = lift_run l (m s).

(** The calls an action may leave: a failure before any output, or the
    two outputs, followed by nothing, by a failure or, for an action with a
    post-save, by the three saved states that register it. *)
Inductive protocol (post : bool) (key : jsstring) : list CoreCall → Prop :=
| protocol_failed message : protocol post key [SetFailed message]
| protocol_done hit tail :
    tail = []
    ∨ tail = [SetFailed (js "No matching cache found")]
    ∨ (post = true
       ∧ ∃ path level,
           tail = [SaveState "CACHE_KEY" key; SaveState "CACHE_PATH" path;
                   SaveState "CACHE_COMPRESSION_LEVEL" level]) →
    protocol post key
      ([SetOutput "cache-hit" (Boolean_toString hit);
        SetOutput "cache-primary-key" key] ++ tail).

(** [process.env.GITHUB_WORKSPACE || process.cwd()] *)
Definition workspaceDir {state} (host : Host state) : M state jsstring :=
  let! workspace := getenv host "GITHUB_WORKSPACE" in
  match workspace with
  | Some (c :: w) => ret (c :: w)
  | _ => cwd host
  end.

(** The calls an action made: those recorded at the end of its run. *)
Definition calls_of {state A}
    (r : Result A * (state * list CoreCall) * list Event) : list CoreCall :=
  (final r).2.

(** The five inputs of [restore.ts], read. *)
Definition inputs_read (inputs : ActionInputs) (path key restoreKeys : jsstring)
    (failOnCacheMiss lookupOnly : bool) : Prop :=
  getInput inputs "path" true = Ok path
  ∧ getInput inputs "key" true = Ok key
  ∧ getInput inputs "restore-keys" false = Ok restoreKeys
  ∧ getBooleanInput inputs "fail-on-cache-miss" = Ok failOnCacheMiss
  ∧ getBooleanInput inputs "lookup-only" = Ok lookupOnly.

(** One of the five inputs of [restore.ts] cannot be read. *)
Definition input_error (inputs : ActionInputs) : Prop :=
  (∃ e, getInput inputs "path" true = Throw e)
  ∨ (∃ e, getInput inputs "key" true = Throw e)
  ∨ (∃ e, getInput inputs "restore-keys" false = Throw e)
  ∨ (∃ e, getBooleanInput inputs "fail-on-cache-miss" = Throw e)
  ∨ (∃ e, getBooleanInput inputs "lookup-only" = Throw e).

(** Inputs as the workflow of the README gives them. *)
Definition example_inputs (lookupOnly failOnCacheMiss : bool) : ActionInputs := {|
  getInput := λ name required,
    if String.eqb name "path" then Ok (js "node_modules")
    else if String.eqb name "key" then Ok (js "k")
    else if String.eqb name "restore-keys" then Ok (js "zz
b")
    else Ok [];
  getBooleanInput := λ name,
    if String.eqb name "lookup-only" then Ok lookupOnly
    else if String.eqb name "fail-on-cache-miss" then Ok failOnCacheMiss
    else Throw (js "Input does not meet YAML 1.2 Core Schema specification")
|}.

(** Inputs whose booleans cannot be read. *)
Definition unreadable_inputs : ActionInputs := {|
  getInput := λ name required, Ok (js "x");
  getBooleanInput := λ name, Throw (js "not a boolean")
|}.

(** ** Vocabulary of the frame properties *)

(** A run that touches the store only. From [s], the calls [t] lead to
    [s']: a probe changes nothing, and the machine changes only by
    [fs.mkdirSync] of the cache directory, as it resolves in the state of
    the call, and only where that directory does not exist. *)
Inductive store_run {state} (host : Host state)
    : state → list Event → state → Prop :=
| store_run_done s : store_run host s [] s
| store_run_probe s p t s' :
    store_run host s t s' → store_run host s (EvExistsSync p :: t) s'
| store_run_create s t s' :
    fs_existsSync host (resolvedCacheDir host s) s = false →
    store_run host (fs_mkdirSync host (resolvedCacheDir host s) s).2 t s' →
    store_run host s (EvMkdirSync (resolvedCacheDir host s) :: t) s'.

(** The directory a [tar] command extracts into, for an event that is
    such a command: the operand of [-C] after [-xf archive]. *)
Definition extraction_dir (e : Event) : option jsstring :=
  match e with
  | EvExec _ [_; _; flag; _; option_C; dir] =>
      if bool_decide (flag = js "-xf" ∧ option_C = js "-C") then Some dir
      else None
  | _ => None
  end.


(** A directory the codec falls back to: what [process.cwd()] returned,
    or [process.env.RUNNER_TEMP || '/tmp']. *)
Definition fallback_dir {state} (host : Host state) (dir : jsstring) : Prop :=
  (∃ s s', process_cwd host s = (Ok dir, s'))
  ∨ (∃ s, dir = or_else (env host s "RUNNER_TEMP") (js "/tmp")).

(** * Properties *)

(** ** Strings *)

Lemma drop_while_split {A} (f : A → bool) (l : list A) :
  ∃ pre, l = pre ++ drop_while f l ∧ Forall (λ x, f x = true) pre.
Proof.
  induction l as [|x l [pre [Hl Hpre]]]; simpl.
  - by exists [].
  - destruct (f x) eqn:Hx.
    + exists (x :: pre). split; [simpl; congruence | by constructor].
    + by exists [].
Qed.

Lemma drop_while_head {A} (f : A → bool) (l : list A) (x : A) :
  head (drop_while f l) = Some x → f x = false.
Proof.
  induction l as [|y l IH]; simpl; [done|].
  destruct (f y) eqn:Hy; [done|]. simpl. by intros [= <-].
Qed.

Lemma drop_while_nil {A} (f : A → bool) (l : list A) :
  drop_while f l = [] ↔ Forall (λ x, f x = true) l.
Proof.
  induction l as [|y l IH]; simpl; [by split|].
  destruct (f y) eqn:Hy.
  - rewrite IH. split; [by constructor | by inversion 1].
  - split; [done|]. inversion 1; congruence.
Qed.

Lemma trim_is_trim_of (l : jsstring) : is_trim_of (trim l) l.
Proof.
  unfold trim, trimEnd, trimStart.
  destruct (drop_while_split is_whitespace l) as [pre [Hl Hpre]].
  set (t := drop_while is_whitespace l) in *.
  destruct (drop_while_split is_whitespace (reverse t)) as [post [Ht Hpost]].
  set (u := drop_while is_whitespace (reverse t)) in *.
  assert (Ht' : t = reverse u ++ reverse post).
  { by rewrite <- (reverse_involutive t), Ht, reverse_app. }
  repeat split.
  - exists pre, (reverse post). repeat split; [by rewrite <- Ht' | done |].
    by apply Forall_reverse.
  - intros c Hc. apply (drop_while_head is_whitespace l).
    fold t. rewrite Ht'. by destruct (reverse u).
  - intros c. rewrite last_reverse. apply drop_while_head.
Qed.

Lemma trim_nil_iff (l : jsstring) : trim l = [] ↔ blank l.
Proof.
  unfold trim, trimEnd, trimStart, blank. split.
  - intros H. apply drop_while_nil.
    destruct (drop_while is_whitespace l) as [|c t] eqn:E; [done|].
    exfalso.
    assert (Hc : is_whitespace c = false).
    { apply (drop_while_head is_whitespace l). by rewrite E. }
    apply (f_equal reverse) in H. rewrite reverse_involutive in H.
    apply drop_while_nil in H. rewrite Forall_reverse in H.
    apply Forall_cons in H as [H _]. congruence.
  - intros H. apply drop_while_nil in H. by rewrite H.
Qed.

Lemma split_nonempty (sep : N) (s : jsstring) : split sep s ≠ [].
Proof. destruct s as [|c s]; simpl; [done|]. destruct (c =? sep); [done|]. by destruct (split sep s). Qed.

Lemma split_join (sep : N) (s : jsstring) : array_join [sep] (split sep s) = s.
Proof.
  induction s as [|c s IH]; [done|]. simpl.
  destruct (N.eqb_spec c sep) as [->|Hne].
  - pose proof (split_nonempty sep s). destruct (split sep s); [done|].
    simpl in *. by rewrite IH.
  - pose proof (split_nonempty sep s).
    destruct (split sep s) as [|piece pieces]; [done|].
    destruct pieces; simpl in *; by rewrite <- IH.
Qed.

Lemma split_no_sep (sep : N) (s : jsstring) :
  Forall (λ piece, sep ∉ piece) (split sep s).
Proof.
  induction s as [|c s IH]; simpl.
  - repeat constructor. by intros ?%elem_of_nil.
  - destruct (N.eqb_spec c sep) as [->|Hne].
    + constructor; [by intros ?%elem_of_nil | done].
    + destruct (split sep s) as [|piece pieces].
      { repeat constructor. intros [?|?%elem_of_nil]%elem_of_cons; done. }
      apply Forall_cons in IH as [Hp Hps]. constructor; [|done].
      intros [?|?]%elem_of_cons; done.
Qed.

Lemma is_alnum_iff (c : N) : is_alnum c = true ↔ c ∈ alnum_chars.
Proof.
  assert (Hsmall : ∀ n, (n < 123)%nat →
            is_alnum (N.of_nat n) = bool_decide (N.of_nat n ∈ alnum_chars)).
  { assert (H : forallb (λ n, bool_decide (is_alnum (N.of_nat n)
                 = bool_decide (N.of_nat n ∈ alnum_chars))) (seq 0 123) = true)
      by (vm_compute; reflexivity).
    intros n Hn. rewrite forallb_forall in H.
    specialize (H n). rewrite bool_decide_eq_true in H. apply H.
    apply in_seq. lia. }
  destruct (decide (c < 123)) as [Hc|Hc].
  - specialize (Hsmall (N.to_nat c)). rewrite N2Nat.id in Hsmall.
    rewrite Hsmall by lia. apply bool_decide_eq_true.
  - split.
    + unfold is_alnum. intros H.
      repeat (apply orb_prop in H; destruct H as [H|H]);
        apply andb_prop in H; destruct H as [_ H]; apply N.leb_le in H; lia.
    + intros H. exfalso.
      assert (HF : Forall (λ d, d < 123) alnum_chars).
      { apply (proj1 (bool_decide_eq_true _)). vm_compute. reflexivity. }
      rewrite Forall_forall in HF. apply HF in H. lia.
Qed.

Lemma filter_ext_elem {A} (P1 P2 : A → Prop)
    `{!∀ x, Decision (P1 x), !∀ x, Decision (P2 x)} (l : list A) :
  (∀ x, x ∈ l → (P1 x ↔ P2 x)) → filter P1 l = filter P2 l.
Proof.
  induction l as [|a l IH]; [done|]. intros Hiff.
  assert (Ha : P1 a ↔ P2 a) by (apply Hiff; left).
  assert (Hl : filter P1 l = filter P2 l).
  { apply IH. intros x Hx. apply Hiff. by right. }
  destruct (decide (P1 a)).
  - rewrite !filter_cons_True by tauto. by rewrite Hl.
  - rewrite !filter_cons_False by tauto. done.
Qed.

Lemma trim_not_blank (line : jsstring) : ¬ blank (trim line) ↔ trim line ≠ [].
Proof.
  split.
  - intros H E. apply H. rewrite E. constructor.
  - intros H Hb. destruct (trim_is_trim_of line) as (_ & Hhd & _).
    destruct (trim line) as [|c t]; [done|].
    apply Forall_cons in Hb as [Hc _]. specialize (Hhd c eq_refl). congruence.
Qed.

(** C7. Key sanitisation is a total function of the key that keeps every
    code unit of [[A-Za-z0-9]] and puts ['_'] for every other one, position
    by position: the length and the order are those of the key, and the
    result is made of [[A-Za-z0-9_]] only. The archive path is the cache
    directory joined with the sanitised key followed by [".tar.zst"]. *)
Theorem safeKey_sanitizes (key : jsstring) :
  length (safeKey key) = length key
  ∧ (∀ i, safeKey key !! i
          = (λ c, if bool_decide (c ∈ alnum_chars) then c else underscore)
              <$> key !! i)
  ∧ Forall (λ c, c ∈ alnum_chars ∨ c = underscore) (safeKey key)
  ∧ (∀ state (host : Host state) (s : state),
       getCacheFilePath host key s
       = match getCacheDir host s with
         | (Ok cacheDir, s', t) =>
             (Ok (path.join [cacheDir; safeKey key ++ js ".tar.zst"]), s', t)
         | (Throw e, s', t) => (Throw e, s', t)
         end).
Proof.
  split; [|split; [|split]].
  - apply length_fmap.
  - intros i. unfold safeKey. rewrite list_lookup_fmap.
    destruct (key !! i) as [c|]; [|done].
    simpl. f_equal. destruct (is_alnum c) eqn:E.
    + apply is_alnum_iff in E. by rewrite bool_decide_eq_true_2.
    + rewrite bool_decide_eq_false_2; [done|].
      intros H%is_alnum_iff. congruence.
  - apply Forall_fmap, Forall_forall. intros c _. simpl.
    destruct (is_alnum c) eqn:E; [left; by apply is_alnum_iff | by right].
  - intros state host s. unfold getCacheFilePath, bind, ret.
    destruct (getCacheDir host s) as [[[cacheDir|e] s'] t]; [|done].
    by rewrite app_nil_r.
Qed.

(** C8. [resolvePaths] splits its input at the newlines, trims every line,
    and keeps, in their order, the trimmed lines that are not empty: a line
    is dropped exactly when it is blank, and no entry of the result is empty
    or blank. It is a total function. *)
Theorem resolvePaths_lines (raw : jsstring) :
  let lines := split newline raw in
  (array_join [newline] lines = raw ∧ Forall (λ line, newline ∉ line) lines)
  ∧ Forall (λ line, is_trim_of (trim line) line) lines
  ∧ resolvePaths raw = filter (λ entry, ¬ blank entry) (trim <$> lines)
  ∧ resolvePaths raw `sublist_of` (trim <$> lines)
  ∧ (∀ line, line ∈ lines → (trim line ∈ resolvePaths raw ↔ ¬ blank line))
  ∧ Forall (λ entry, entry ≠ [] ∧ ¬ blank entry) (resolvePaths raw).
Proof.
  simpl. unfold resolvePaths.
  split; [split|split; [|split; [|split; [|split]]]].
  - apply split_join.
  - apply split_no_sep.
  - apply Forall_forall. intros line _. apply trim_is_trim_of.
  - apply filter_ext_elem. intros entry (line & -> & _)%list_elem_of_fmap.
    symmetry. apply trim_not_blank.
  - apply sublist_filter.
  - intros line Hline. rewrite list_elem_of_filter, <- trim_nil_iff. split.
    + by intros [? _].
    + intros ?. split; [done | by apply list_elem_of_fmap_2].
  - apply Forall_forall. intros entry [Hne Hin]%list_elem_of_filter.
    split; [done|]. apply list_elem_of_fmap in Hin as (line & -> & _).
    by apply trim_not_blank.
Qed.

(** ** The monad *)

Section MonadFacts.
Context {state : Type}.

Lemma bind_assoc_run {A B C} (m : M state A) (f : A → M state B)
    (g : B → M state C) (s : state) :
  bind (bind m f) g s = bind m (λ a, bind (f a) g) s.
Proof.
  unfold bind. destruct (m s) as [[[a|e] s1] t1]; [|done].
  destruct (f a s1) as [[[b|e] s2] t2]; [|done].
  destruct (g b s2) as [[r s3] t3]. by rewrite app_assoc.
Qed.

Lemma bind_ext_run {A B} (m : M state A) (f g : A → M state B) (s : state) :
  (∀ a s', f a s' = g a s') → bind m f s = bind m g s.
Proof.
  intros H. unfold bind. destruct (m s) as [[[a|e] s1] t1]; [|done].
  by rewrite H.
Qed.

Lemma bind_ret_run {A B} (a : A) (f : A → M state B) (s : state) :
  bind (ret a) f s = f a s.
Proof. unfold bind, ret. by destruct (f a s) as [[r s'] t]. Qed.

(** A [try]/[catch] whose handler returns a value never throws. *)
Lemma try_catch_ret {A} (m : M state A) (fallback : A) (s : state) :
  caught_as fallback (m s) (try_catch m (λ _, ret fallback) s).
Proof.
  unfold caught_as, try_catch, ret.
  destruct (m s) as [[[a|e] s1] t1]; [done|]. by rewrite app_nil_r.
Qed.

Lemma caught_as_returns {A} (fallback : A)
    (body op : Result A * state * list Event) :
  caught_as fallback body op → ∃ a, value op = Ok a.
Proof.
  unfold caught_as. destruct body as [[[a|e] s1] t1]; intros ->; eauto.
Qed.

End MonadFacts.

(** ** Scans: the primary key, then the restore keys in order *)

Section Scan.
Context {state R : Type} (mk : bool → option jsstring → R).
Context (step : jsstring → M state bool) (loop : list jsstring → M state R).
Hypothesis loop_nil : ∀ s, loop [] s = (Ok (mk false None), s, []).
Hypothesis loop_cons : ∀ k ks s,
  loop (k :: ks) s
  = bind (step k) (λ hit, if hit then ret (mk false (Some k)) else loop ks) s.

Lemma default_last_cons {A} (l : list A) (d x : A) :
  default d (last (x :: l)) = default x (last l).
Proof.
  revert d x. induction l as [|y l IH]; intros d x; [done|].
  change (last (x :: y :: l)) with (last (y :: l)).
  by rewrite (IH d y), (IH x y).
Qed.

Lemma state_after_cons {A} (s : state) (r : Result A * state * list Event) rs :
  state_after s (r :: rs) = state_after (final r) rs.
Proof. unfold state_after. rewrite fmap_cons. apply default_last_cons. Qed.

Lemma first_success_miss (k : jsstring) (ks : list jsstring) r rs :
  missed r = true →
  first_success (state:=state) (k :: ks) (r :: rs)
  = (λ '(n, key), (S n, key)) <$> first_success ks rs.
Proof.
  intros Hr. unfold first_success. simpl. rewrite Hr. simpl.
  destruct (ks !! misses rs); [|done].
  by destruct (value <$> rs !! misses rs) as [[[]|]|].
Qed.

Lemma stopped_miss (r : Result bool * state * list Event) rs :
  missed r = true → stopped (r :: rs) = stopped rs.
Proof. intros Hr. unfold stopped. simpl. by rewrite Hr. Qed.

Lemma made_miss (r : Result bool * state * list Event) rs :
  missed r = true → made (r :: rs) = r :: made rs.
Proof. intros Hr. unfold made. simpl. by rewrite Hr. Qed.

Lemma made_stop (r : Result bool * state * list Event) rs :
  missed r = false → made (r :: rs) = [r].
Proof. intros Hr. unfold made. simpl. rewrite Hr. simpl. by rewrite take_0. Qed.

Lemma loop_runs (keys : list jsstring) (s : state) :
  loop keys s
  = (match stopped (runs step keys s) with
     | Some e => Throw e
     | None =>
         Ok (mk false (snd <$> first_success keys (runs step keys s)))
     end,
     state_after s (made (runs step keys s)),
     trace_of (made (runs step keys s))).
Proof.
  revert s. induction keys as [|k ks IH]; intros s; [by rewrite loop_nil|].
  rewrite loop_cons. unfold bind. simpl runs.
  destruct (step k s) as [[[[]|e] s1] t1] eqn:E.
  - rewrite made_stop by done.
    unfold ret, stopped, first_success, state_after, trace_of. simpl. done.
  - rewrite IH, stopped_miss, made_miss, first_success_miss, state_after_cons
      by done.
    change (final (Ok false, s1, t1)) with s1.
    destruct (first_success ks (runs step ks s1)) as [[n key]|]; done.
  - rewrite made_stop by done.
    unfold stopped, first_success, state_after, trace_of. simpl.
    by rewrite app_nil_r.
Qed.

(** An operation that tries the primary key, scans the restore keys, and
    catches what is thrown on the way. *)
Lemma scan_runs (k : jsstring) (ks : list jsstring) (s : state) :
  try_catch
    (bind (step k) (λ hit, if hit then ret (mk true (Some k)) else loop ks))
    (λ _, ret (mk false None)) s
  = (Ok (report mk (first_success (k :: ks) (runs step (k :: ks) s))),
     state_after s (made (runs step (k :: ks) s)),
     trace_of (made (runs step (k :: ks) s))).
Proof.
  unfold try_catch, bind. simpl runs.
  destruct (step k s) as [[[[]|e] s1] t1] eqn:E.
  - rewrite made_stop by done.
    unfold ret, report, first_success, state_after, trace_of. simpl.
    by rewrite app_nil_r.
  - rewrite loop_runs, made_miss, first_success_miss, state_after_cons by done.
    change (final (Ok false, s1, t1)) with s1.
    unfold stopped, first_success.
    destruct (ks !! misses (runs step ks s1)) as [key|],
      (value <$> runs step ks s1 !! misses (runs step ks s1)) as [[[]|e]|];
      unfold ret; simpl; rewrite ?app_nil_r; done.
  - rewrite made_stop by done.
    unfold ret, report, first_success, state_after, trace_of. simpl.
    by rewrite !app_nil_r.
Qed.

End Scan.

Lemma misses_spec {state} (rs : list (Result bool * state * list Event)) :
  (∀ i, (i < misses rs)%nat → value <$> rs !! i = Some (Ok false))
  ∧ value <$> rs !! misses rs ≠ Some (Ok false).
Proof.
  induction rs as [|r rs [IH1 IH2]]; simpl; [split; [lia | done]|].
  unfold missed. destruct r as [[[[]|e] s1] t1]; simpl; try (split; [lia | done]).
  split; [|done]. intros [|i] Hi; [done|]. apply IH1. lia.
Qed.

(** ** The engine *)

Section EngineFacts.
Context {state : Type} (host : Host state).

Lemma getCacheDir_run (s : state) :
  getCacheDir host s
  = let cacheDir := resolvedCacheDir host s in
    if fs_existsSync host cacheDir s then (Ok cacheDir, s, [EvExistsSync cacheDir])
    else match fs_mkdirSync host cacheDir s with
         | (Ok _, s') => (Ok cacheDir, s', [EvExistsSync cacheDir; EvMkdirSync cacheDir])
         | (Throw e, s') => (Throw e, s', [EvExistsSync cacheDir; EvMkdirSync cacheDir])
         end.
Proof.
  unfold getCacheDir, resolvedCacheDir, bind, getenv, existsSync, mkdirSync, ret.
  simpl. destruct (fs_existsSync host _ s); simpl; [done|].
  by destruct (fs_mkdirSync host _ s) as [[[]|e] s'].
Qed.

Lemma cacheExists_run (key : jsstring) (s : state) :
  cacheExists host key s
  = match getCacheDir host s with
    | (Ok cacheDir, s', t) =>
        let cachePath := path.join [cacheDir; safeKey key ++ js ".tar.zst"] in
        (Ok (fs_existsSync host cachePath s'), s', t ++ [EvExistsSync cachePath])
    | (Throw e, s', t) => (Throw e, s', t)
    end.
Proof.
  unfold cacheExists, getCacheFilePath, bind, ret, existsSync.
  destruct (getCacheDir host s) as [[[cacheDir|e] s'] t]; [|done].
  by rewrite app_nil_r.
Qed.

(** [cacheExists] calls nothing but [fs.existsSync] and [fs.mkdirSync]. *)
Lemma cacheExists_store_calls (key : jsstring) (s : state) :
  Forall (λ e, is_store_call e = true) (trace (cacheExists host key s)).
Proof.
  rewrite cacheExists_run, getCacheDir_run. simpl.
  destruct (fs_existsSync host _ s); [by repeat constructor|].
  destruct (fs_mkdirSync host _ s) as [[[]|e] s']; by repeat constructor.
Qed.

(** Where the cache directory exists, [cacheExists] is a pure probe. *)
Lemma cacheExists_pure (key : jsstring) (s : state) :
  fs_existsSync host (resolvedCacheDir host s) s = true →
  ∃ present t,
    cacheExists host key s = (Ok present, s, t)
    ∧ Forall (λ e, is_existsSync e = true) t.
Proof.
  intros H. rewrite cacheExists_run, getCacheDir_run. simpl. rewrite H.
  eexists _, _. split; [done|]. by repeat constructor.
Qed.

Lemma lookup_for_store_calls (keys : list jsstring) (s : state) :
  Forall (λ e, is_store_call e = true) (trace (lookup_for host keys s)).
Proof.
  revert s. induction keys as [|k ks IH]; intros s; [by constructor|].
  simpl. unfold bind. pose proof (cacheExists_store_calls k s) as Hk.
  destruct (cacheExists host k s) as [[[[]|e] s1] t1]; simpl in *.
  - by rewrite app_nil_r.
  - specialize (IH s1). destruct (lookup_for host ks s1) as [[r s2] t2].
    simpl in *. by apply Forall_app.
  - done.
Qed.

Lemma lookup_for_pure (keys : list jsstring) (s : state) :
  fs_existsSync host (resolvedCacheDir host s) s = true →
  ∃ r t, lookup_for host keys s = (Ok r, s, t)
         ∧ Forall (λ e, is_existsSync e = true) t.
Proof.
  intros H. induction keys as [|k ks (r & t & Hr & Ht)].
  - eexists _, _. split; [done | constructor].
  - simpl. unfold bind.
    destruct (cacheExists_pure k s H) as (present & t1 & -> & Ht1).
    destruct present.
    + eexists _, _. split; [done|]. by rewrite app_nil_r.
    + rewrite Hr. eexists _, _. split; [done|]. by apply Forall_app.
Qed.

Lemma store_calls_no_codec (t : list Event) :
  Forall (λ e, is_store_call e = true) t → codec_calls t = [].
Proof.
  induction 1 as [|e t He _ IH]; [done|]. unfold codec_calls in *. simpl.
  rewrite IH. by destruct e.
Qed.

Lemma existsSync_store_calls (t : list Event) :
  Forall (λ e, is_existsSync e = true) t → Forall (λ e, is_store_call e = true) t.
Proof. intros H. eapply Forall_impl; [exact H|]. by intros []. Qed.

(** The scans of [lookup] and [restore], in the form of [Section Scan]. *)
Lemma lookup_for_cons (k : jsstring) (ks : list jsstring) (s : state) :
  lookup_for host (k :: ks) s
  = bind (cacheExists host k)
      (λ hit, if hit then ret (mkLookupResult false (Some k))
              else lookup_for host ks) s.
Proof. done. Qed.

Lemma restore_for_cons (targetDir k : jsstring) (ks : list jsstring) (s : state) :
  restore_for host (k :: ks) targetDir s
  = bind (tryRestore host targetDir k)
      (λ hit, if hit then ret (mkRestoreResult false (Some k))
              else restore_for host ks targetDir) s.
Proof.
  unfold tryRestore. rewrite bind_assoc_run. simpl restore_for.
  apply bind_ext_run. intros [] s'.
  - by rewrite bind_assoc_run.
  - by rewrite bind_ret_run.
Qed.

Lemma restore_try_head (paths : list jsstring) (targetDir k : jsstring)
    (ks : list jsstring) (s : state) :
  restore_try host paths k ks targetDir s
  = bind (tryRestore host targetDir k)
      (λ hit, if hit then ret (mkRestoreResult true (Some k))
              else restore_for host ks targetDir) s.
Proof.
  unfold tryRestore, restore_try. rewrite bind_assoc_run.
  apply bind_ext_run. intros [] s'.
  - by rewrite bind_assoc_run.
  - by rewrite bind_ret_run.
Qed.

Lemma lookup_scan (k : jsstring) (ks : list jsstring) (s : state) :
  lookup host k ks s
  = (Ok (report mkLookupResult
           (first_success (k :: ks) (runs (cacheExists host) (k :: ks) s))),
     state_after s (made (runs (cacheExists host) (k :: ks) s)),
     trace_of (made (runs (cacheExists host) (k :: ks) s))).
Proof.
  apply (scan_runs mkLookupResult (cacheExists host) (lookup_for host));
    [done | apply lookup_for_cons].
Qed.

Lemma restore_scan (paths : list jsstring) (targetDir k : jsstring)
    (ks : list jsstring) (s : state) :
  restore host paths k ks targetDir s
  = (Ok (report mkRestoreResult
           (first_success (k :: ks) (runs (tryRestore host targetDir) (k :: ks) s))),
     state_after s (made (runs (tryRestore host targetDir) (k :: ks) s)),
     trace_of (made (runs (tryRestore host targetDir) (k :: ks) s))).
Proof.
  rewrite <- (scan_runs mkRestoreResult (tryRestore host targetDir)
                (λ keys, restore_for host keys targetDir));
    [|done | intros; apply restore_for_cons].
  unfold restore, try_catch. by rewrite restore_try_head.
Qed.

(** Where the cache directory exists, the existence of an archive is a
    fixed property of the state, and [lookup] is a search in the list. *)
Lemma lookup_for_static (keys : list jsstring) (s : state) :
  fs_existsSync host (resolvedCacheDir host s) s = true →
  let has key :=
    fs_existsSync host
      (path.join [resolvedCacheDir host s; safeKey key ++ js ".tar.zst"]) s in
  value (lookup_for host keys s)
  = Ok (mkLookupResult false (List.find has keys)).
Proof.
  intros H has. induction keys as [|k ks IH]; [done|].
  simpl. unfold bind. rewrite cacheExists_run, getCacheDir_run. simpl.
  rewrite H. fold (has k). destruct (has k); [done|].
  destruct (lookup_for_pure ks s H) as (r & t & Hr & _).
  rewrite Hr in *. done.
Qed.

Lemma lookup_static (k : jsstring) (ks : list jsstring) (s : state) :
  fs_existsSync host (resolvedCacheDir host s) s = true →
  let has key :=
    fs_existsSync host
      (path.join [resolvedCacheDir host s; safeKey key ++ js ".tar.zst"]) s in
  value (lookup host k ks s)
  = Ok (if has k then mkLookupResult true (Some k)
        else mkLookupResult false (List.find has ks)).
Proof.
  intros H has. unfold lookup, lookup_try, try_catch, bind.
  rewrite cacheExists_run, getCacheDir_run. simpl.
  rewrite H. fold (has k). destruct (has k); [done|].
  pose proof (lookup_for_static ks s H) as Hks.
  destruct (lookup_for_pure ks s H) as (r & t & Hr & _).
  rewrite Hr in *. done.
Qed.

End EngineFacts.

(** ** The codec *)

Section CodecFacts.
Context {state : Type} (host : Host state).

Lemma emit_try_catch_returns {A} (e : Event) (m : M state A) (fallback : A)
    (s : state) :
  ∃ a, value (bind (emit e) (λ _, try_catch m (λ _, ret fallback)) s) = Ok a.
Proof.
  unfold bind, emit. simpl.
  destruct (caught_as_returns _ _ _ (try_catch_ret m fallback s)) as [a Ha].
  destruct (try_catch m _ s) as [[r s'] t]. simpl in *. eauto.
Qed.

(** Neither codec function throws: every failure inside is reported as
    [false]. *)
Lemma compressWithZstd_returns archivePath paths level (s : state) :
  ∃ success, value (compressWithZstd host archivePath paths level s) = Ok success.
Proof. apply emit_try_catch_returns. Qed.

Lemma decompressWithZstd_returns archivePath targetDir (s : state) :
  ∃ success, value (decompressWithZstd host archivePath targetDir s) = Ok success.
Proof. apply emit_try_catch_returns. Qed.

(** A decompression enters the codec once, with the directory it was given. *)
Lemma decompressWithZstd_calls archivePath targetDir (s : state) :
  codec_calls (trace (decompressWithZstd host archivePath targetDir s))
  = [EvDecompress archivePath targetDir].
Proof.
  unfold decompressWithZstd, bind, try_catch, emit, which, existsSync, mkdirSync,
    accessSync, cwd, exec, getenv, ret, throw.
  repeat case_match; simplify_eq; reflexivity.
Qed.

Lemma compressWithZstd_calls archivePath paths level (s : state) :
  codec_calls (trace (compressWithZstd host archivePath paths level s))
  = [EvCompress archivePath paths level].
Proof.
  unfold compressWithZstd, bind, try_catch, emit, which, existsSync, mkdirSync,
    exec, ret, throw.
  repeat case_match; simplify_eq; reflexivity.
Qed.

End CodecFacts.

(** ** The runs of one step *)

Section StepFacts.
Context {state : Type} (host : Host state).

Lemma tryRestore_run (targetDir key : jsstring) (s : state) :
  tryRestore host targetDir key s
  = match cacheExists host key s with
    | (Ok true, s1, t1) =>
        match getCacheFilePath host key s1 with
        | (Ok cachePath, s2, t2) =>
            let d := decompressWithZstd host cachePath targetDir s2 in
            (value d, final d, t1 ++ t2 ++ trace d)
        | (Throw e, s2, t2) => (Throw e, s2, t1 ++ t2)
        end
    | (Ok false, s1, t1) => (Ok false, s1, t1 ++ [])
    | (Throw e, s1, t1) => (Throw e, s1, t1)
    end.
Proof.
  unfold tryRestore, bind.
  destruct (cacheExists host key s) as [[[[]|e] s1] t1]; try done.
  destruct (getCacheFilePath host key s1) as [[[cachePath|e] s2] t2]; [|done].
  by destruct (decompressWithZstd host cachePath targetDir s2) as [[r s3] t3].
Qed.

Lemma getCacheFilePath_store_calls (key : jsstring) (s : state) :
  Forall (λ e, is_store_call e = true) (trace (getCacheFilePath host key s)).
Proof.
  unfold getCacheFilePath, bind, ret. rewrite getCacheDir_run. simpl.
  destruct (fs_existsSync host _ s); [by repeat constructor|].
  destruct (fs_mkdirSync host _ s) as [[[]|e] s']; by repeat constructor.
Qed.

Lemma store_call_extracts_into (targetDir : jsstring) (t : list Event) :
  Forall (λ e, is_store_call e = true) t → Forall (extracts_into targetDir) t.
Proof. intros H. eapply Forall_impl; [exact H|]. by intros []. Qed.

Lemma decompressWithZstd_extracts_into archivePath targetDir (s : state) :
  Forall (extracts_into targetDir)
    (trace (decompressWithZstd host archivePath targetDir s)).
Proof.
  unfold decompressWithZstd, bind, try_catch, emit, which, existsSync, mkdirSync,
    accessSync, cwd, exec, getenv, ret, throw.
  repeat case_match; simplify_eq; simpl; repeat constructor.
Qed.

Lemma tryRestore_extracts_into (targetDir key : jsstring) (s : state) :
  Forall (extracts_into targetDir) (trace (tryRestore host targetDir key s)).
Proof.
  rewrite tryRestore_run.
  pose proof (store_call_extracts_into targetDir _ (cacheExists_store_calls host key s)) as H1.
  destruct (cacheExists host key s) as [[[[]|e] s1] t1]; simpl in *;
    rewrite ?app_nil_r; try done.
  pose proof (store_call_extracts_into targetDir _
                (getCacheFilePath_store_calls key s1)) as H2.
  destruct (getCacheFilePath host key s1) as [[[cachePath|e] s2] t2]; simpl in *.
  - rewrite !Forall_app. repeat split; try done.
    apply decompressWithZstd_extracts_into.
  - by rewrite Forall_app.
Qed.

Lemma runs_trace_Forall {A} (P : Event → Prop) (step : jsstring → M state A)
    (keys : list jsstring) (n : nat) (s : state) :
  (∀ k s', Forall P (trace (step k s'))) →
  Forall P (trace_of (take n (runs step keys s))).
Proof.
  intros H. revert n s. induction keys as [|k ks IH]; intros n s.
  - simpl. rewrite take_nil. constructor.
  - destruct n; [constructor|]. simpl. unfold trace_of. simpl.
    apply Forall_app. split; [apply H | apply IH].
Qed.

Lemma first_success_head (k : jsstring) (ks : list jsstring)
    (r : Result bool * state * list Event) rs :
  match first_success (k :: ks) (r :: rs) with
  | Some (n, key) =>
      ((n =? 0)%nat = true ↔ value r = Ok true) ∧ ((n =? 0)%nat = true → key = k)
  | None => value r ≠ Ok true
  end.
Proof.
  unfold first_success. simpl. unfold missed.
  destruct (value r) as [[]|e] eqn:E; simpl.
  - rewrite E. done.
  - destruct (ks !! misses rs); [|done].
    destruct (value <$> rs !! misses rs) as [[[]|]|]; done.
  - rewrite E. done.
Qed.

Lemma filter_existsSync_run (paths : list jsstring) (s : state) :
  filter_existsSync host paths s
  = (Ok (List.filter (λ p, fs_existsSync host p s) paths), s,
     EvExistsSync <$> paths).
Proof.
  induction paths as [|p ps IH]; [done|].
  simpl. unfold bind, existsSync, ret in *. rewrite IH. simpl.
  rewrite app_nil_r. by destruct (fs_existsSync host p s).
Qed.

End StepFacts.

(** ** Frames *)

Section FrameFacts.
Context {state : Type} (host : Host state).

Lemma store_run_app (s s1 s2 : state) (t1 t2 : list Event) :
  store_run host s t1 s1 → store_run host s1 t2 s2 →
  store_run host s (t1 ++ t2) s2.
Proof.
  induction 1 as [s|s p t s' _ IH|s t s' Hdir _ IH]; intros H2; simpl.
  - done.
  - constructor. by apply IH.
  - constructor; [done|]. by apply IH.
Qed.

Lemma getCacheDir_store_run (s : state) :
  store_run host s (trace (getCacheDir host s)) (final (getCacheDir host s)).
Proof.
  rewrite getCacheDir_run. simpl.
  destruct (fs_existsSync host (resolvedCacheDir host s) s) eqn:Hdir.
  - repeat constructor.
  - assert (∀ s', s' = (fs_mkdirSync host (resolvedCacheDir host s) s).2 →
              store_run host s
                [EvExistsSync (resolvedCacheDir host s);
                 EvMkdirSync (resolvedCacheDir host s)] s') as Hrun.
    { intros s' ->. constructor. constructor; [done|constructor]. }
    destruct (fs_mkdirSync host _ s) as [[[]|e] s']; by apply Hrun.
Qed.

Lemma cacheExists_store_run (key : jsstring) (s : state) :
  store_run host s (trace (cacheExists host key s))
    (final (cacheExists host key s)).
Proof.
  rewrite cacheExists_run. pose proof (getCacheDir_store_run s) as H.
  destruct (getCacheDir host s) as [[[dir|e] s'] t]; unfold trace, final in *;
    simpl in *; [|done].
  eapply store_run_app; [exact H|]. repeat constructor.
Qed.

Lemma lookup_for_store_run (keys : list jsstring) (s : state) :
  store_run host s (trace (lookup_for host keys s))
    (final (lookup_for host keys s)).
Proof.
  revert s. induction keys as [|k ks IH]; intros s; [constructor|].
  simpl. unfold bind. pose proof (cacheExists_store_run k s) as Hk.
  destruct (cacheExists host k s) as [[[[]|e] s1] t1]; unfold trace, final in *;
    simpl in *.
  - by rewrite app_nil_r.
  - specialize (IH s1). destruct (lookup_for host ks s1) as [[r s2] t2].
    simpl in *. by eapply store_run_app.
  - done.
Qed.

Lemma lookup_store_run (k : jsstring) (ks : list jsstring) (s : state) :
  store_run host s (trace (lookup host k ks s)) (final (lookup host k ks s)).
Proof.
  unfold lookup, lookup_try, try_catch, bind.
  pose proof (cacheExists_store_run k s) as Hk.
  destruct (cacheExists host k s) as [[[[]|e] s1] t1]; unfold trace, final in *;
    simpl in *; rewrite ?app_nil_r; try done.
  pose proof (lookup_for_store_run ks s1) as Hks.
  destruct (lookup_for host ks s1) as [[[v|e] s2] t2]; unfold trace, final in *;
    simpl in *; rewrite ?app_nil_r; by eapply store_run_app.
Qed.







End FrameFacts.

(** ** The operations of [LocalCache] *)

Section Operations.
Context {state : Type} (host : Host state).

(** C1. [restore] tries the primary key and then the restore keys in list
    order, an attempt on a key being: its archive exists and decompresses
    successfully. With [n] the position of the first attempt that does not
    return [false], it returns that key when the attempt returned [true],
    with [cacheHit] exactly when it is the primary key (position 0), and no
    key otherwise; only the attempts up to position [n] are made, so a
    successful primary key consults no restore key, and a key whose archive
    exists but fails to decompress is passed over. *)
Theorem restore_first_success (paths : list jsstring) (primaryKey : jsstring)
    (restoreKeys : list jsstring) (targetDir : jsstring) (s : state) :
  let keys := primaryKey :: restoreKeys in
  let attempts := runs (tryRestore host targetDir) keys s in
  ∃ n : nat,
    (∀ i, (i < n)%nat → value <$> attempts !! i = Some (Ok false))
    ∧ value <$> attempts !! n ≠ Some (Ok false)
    ∧ restore host paths primaryKey restoreKeys targetDir s
      = (Ok match keys !! n, value <$> attempts !! n with
            | Some key, Some (Ok true) => mkRestoreResult (n =? 0)%nat (Some key)
            | _, _ => mkRestoreResult false None
            end,
         state_after s (take (S n) attempts),
         trace_of (take (S n) attempts)).
Proof.
  intros keys attempts. exists (misses attempts).
  destruct (misses_spec attempts) as [Hbefore Hat].
  split; [done|]. split; [done|].
  unfold attempts, keys. rewrite restore_scan.
  unfold report, first_success, made.
  destruct ((primaryKey :: restoreKeys) !! _) as [key|]; [|done].
  by destruct (value <$> _ !! _) as [[[]|]|].
Qed.

(** C2. [lookup] probes the existence of the archive of the primary key
    and then of the restore keys in list order. With [n] the position of
    the first probe that does not return [false], it returns that key when
    the probe returned [true], with [cacheHit] exactly when it is the
    primary key, and no key otherwise; the probes made are those of the
    positions 0 to [n], in that order, and none after the first match. *)
Theorem lookup_first_match (primaryKey : jsstring) (restoreKeys : list jsstring)
    (s : state) :
  let keys := primaryKey :: restoreKeys in
  let probes := runs (cacheExists host) keys s in
  ∃ n : nat,
    (∀ i, (i < n)%nat → value <$> probes !! i = Some (Ok false))
    ∧ value <$> probes !! n ≠ Some (Ok false)
    ∧ lookup host primaryKey restoreKeys s
      = (Ok match keys !! n, value <$> probes !! n with
            | Some key, Some (Ok true) => mkLookupResult (n =? 0)%nat (Some key)
            | _, _ => mkLookupResult false None
            end,
         state_after s (take (S n) probes),
         trace_of (take (S n) probes)).
Proof.
  intros keys probes. exists (misses probes).
  destruct (misses_spec probes) as [Hbefore Hat].
  split; [done|]. split; [done|].
  unfold probes, keys. rewrite lookup_scan.
  unfold report, first_success, made.
  destruct ((primaryKey :: restoreKeys) !! _) as [key|]; [|done].
  by destruct (value <$> _ !! _) as [[[]|]|].
Qed.

(** C3, as amended. [lookup] never enters the codec: it calls nothing but
    [fs.existsSync] and [fs.mkdirSync]. Every [fs.mkdirSync] it makes is of
    the cache directory, made where that directory does not exist, and the
    state it ends in is the one these creations lead to: nothing else
    changes the machine. Where the cache directory exists it leaves the
    machine as it was and only probes; where it does not, it starts by
    creating it. *)
Theorem lookup_frame (primaryKey : jsstring) (restoreKeys : list jsstring)
    (s : state) :
  let r := lookup host primaryKey restoreKeys s in
  let cacheDir := resolvedCacheDir host s in
  Forall (λ e, is_store_call e = true) (trace r)
  ∧ codec_calls (trace r) = []
  ∧ store_run host s (trace r) (final r)
  ∧ if fs_existsSync host cacheDir s
    then final r = s ∧ Forall (λ e, is_existsSync e = true) (trace r)
    else take 2 (trace r) = [EvExistsSync cacheDir; EvMkdirSync cacheDir].
Proof.
  intros r cacheDir.
  assert (Hstore : Forall (λ e, is_store_call e = true) (trace r)).
  { unfold r, lookup, lookup_try, try_catch, bind.
    pose proof (cacheExists_store_calls host primaryKey s) as Hk.
    destruct (cacheExists host primaryKey s) as [[[[]|e] s1] t1]; simpl in *;
      rewrite ?app_nil_r; try done.
    pose proof (lookup_for_store_calls host restoreKeys s1) as Hks.
    destruct (lookup_for host restoreKeys s1) as [[[v|e] s2] t2]; simpl in *;
      rewrite ?app_nil_r; by apply Forall_app. }
  split; [done|]. split; [by apply store_calls_no_codec|].
  split; [apply lookup_store_run|].
  destruct (fs_existsSync host cacheDir s) eqn:Hdir.
  - unfold r, lookup, lookup_try, try_catch, bind.
    destruct (cacheExists_pure host primaryKey s Hdir) as (present & t1 & -> & Ht1).
    destruct present; simpl; [by rewrite app_nil_r|].
    destruct (lookup_for_pure host restoreKeys s Hdir) as (v & t2 & -> & Ht2).
    simpl. split; [done | by apply Forall_app].
  - unfold r, lookup, lookup_try, try_catch, bind.
    rewrite cacheExists_run, getCacheDir_run. fold cacheDir. simpl. rewrite Hdir.
    destruct (fs_mkdirSync host cacheDir s) as [[[]|e] s1]; simpl; [|done].
    by destruct (fs_existsSync host _ s1), (lookup_for host restoreKeys s1)
      as [[[v|e] s2] t2].
Qed.

(** C4. The result of [lookup] and of [restore] has [cacheHit] exactly
    when the attempt on the primary key succeeded: the probe of its archive
    for [lookup], the probe and the decompression for [restore]. A hit
    reports the primary key, and a reported key other than the primary key
    comes with [cacheHit = false]. *)
Theorem cacheHit_iff_primary (paths : list jsstring) (primaryKey : jsstring)
    (restoreKeys : list jsstring) (targetDir : jsstring) (s : state) :
  (∃ r, value (lookup host primaryKey restoreKeys s) = Ok r
        ∧ (lookup_cacheHit r = true
           ↔ value (cacheExists host primaryKey s) = Ok true)
        ∧ (lookup_cacheHit r = true → matchedKey r = Some primaryKey)
        ∧ (∀ key, matchedKey r = Some key → key ≠ primaryKey →
                  lookup_cacheHit r = false))
  ∧ (∃ r, value (restore host paths primaryKey restoreKeys targetDir s) = Ok r
        ∧ (restore_cacheHit r = true
           ↔ value (tryRestore host targetDir primaryKey s) = Ok true)
        ∧ (restore_cacheHit r = true → restoredKey r = Some primaryKey)
        ∧ (∀ key, restoredKey r = Some key → key ≠ primaryKey →
                  restore_cacheHit r = false)).
Proof.
  split.
  - rewrite lookup_scan. eexists. split; [done|]. simpl runs.
    pose proof (first_success_head primaryKey restoreKeys
                  (cacheExists host primaryKey s)
                  (runs (cacheExists host) restoreKeys
                     (final (cacheExists host primaryKey s)))) as H.
    destruct (first_success _ _) as [[n key]|]; simpl.
    + destruct H as [H1 H2]. split; [done|]. split.
      * intros Hn. by rewrite (H2 Hn).
      * intros key' [= ->] Hne. destruct (n =? 0)%nat; [|done].
        by destruct Hne; apply H2.
    + split; [|done]. split; [done | by intros ?].
  - rewrite restore_scan. eexists. split; [done|]. simpl runs.
    pose proof (first_success_head primaryKey restoreKeys
                  (tryRestore host targetDir primaryKey s)
                  (runs (tryRestore host targetDir) restoreKeys
                     (final (tryRestore host targetDir primaryKey s)))) as H.
    destruct (first_success _ _) as [[n key]|]; simpl.
    + destruct H as [H1 H2]. split; [done|]. split.
      * intros Hn. by rewrite (H2 Hn).
      * intros key' [= ->] Hne. destruct (n =? 0)%nat; [|done].
        by destruct Hne; apply H2.
    + split; [|done]. split; [done | by intros ?].
Qed.

(** C5. [save], [restore] and [lookup] never throw: whatever the body of
    their [try] block throws is caught, and the operation then returns
    [false], respectively a result without hit and without key. *)
Theorem operations_never_throw (paths : list jsstring) (key : jsstring)
    (compressionLevel : float) (primaryKey : jsstring) (restoreKeys : list jsstring)
    (targetDir : jsstring) (s : state) :
  (caught_as false (save_try host paths key compressionLevel s)
     (save host paths key compressionLevel s)
   ∧ caught_as (mkRestoreResult false None)
       (restore_try host paths primaryKey restoreKeys targetDir s)
       (restore host paths primaryKey restoreKeys targetDir s)
   ∧ caught_as (mkLookupResult false None)
       (lookup_try host primaryKey restoreKeys s)
       (lookup host primaryKey restoreKeys s))
  ∧ (∃ b, value (save host paths key compressionLevel s) = Ok b)
  ∧ (∃ r, value (restore host paths primaryKey restoreKeys targetDir s) = Ok r)
  ∧ (∃ r, value (lookup host primaryKey restoreKeys s) = Ok r).
Proof.
  pose proof (try_catch_ret (save_try host paths key compressionLevel) false s) as Hs.
  pose proof (try_catch_ret
                (restore_try host paths primaryKey restoreKeys targetDir)
                (mkRestoreResult false None) s) as Hr.
  pose proof (try_catch_ret (lookup_try host primaryKey restoreKeys)
                (mkLookupResult false None) s) as Hl.
  split; [done|].
  split; [|split]; eapply caught_as_returns; eassumption.
Qed.

(** C6. [save] probes every path and keeps those that exist. If none
    does it returns [false] at once, the codec not entered; otherwise it
    resolves the archive path, compresses the existing paths, and returns
    the boolean of the codec (when the cache directory cannot be created
    the codec is not reached and [save] returns [false]). *)
Theorem save_filters_then_compresses (paths : list jsstring) (key : jsstring)
    (compressionLevel : float) (s : state) :
  let existingPaths := List.filter (λ p, fs_existsSync host p s) paths in
  let probes := EvExistsSync <$> paths in
  match existingPaths with
  | [] =>
      save host paths key compressionLevel s = (Ok false, s, probes)
      ∧ codec_calls probes = []
  | _ :: _ =>
      match getCacheFilePath host key s with
      | (Ok cachePath, s1, t1) =>
          let c := compressWithZstd host cachePath existingPaths compressionLevel s1 in
          ∃ success,
            value c = Ok success
            ∧ save host paths key compressionLevel s
              = (Ok success, final c, probes ++ t1 ++ trace c)
      | (Throw _, s1, t1) =>
          save host paths key compressionLevel s = (Ok false, s1, probes ++ t1)
      end
  end.
Proof.
  intros existingPaths probes.
  assert (Hrun : save host paths key compressionLevel s
    = match existingPaths with
      | [] => (Ok false, s, probes)
      | _ :: _ =>
          match getCacheFilePath host key s with
          | (Ok cachePath, s1, t1) =>
              match compressWithZstd host cachePath existingPaths
                      compressionLevel s1 with
              | (Ok success, s2, t2) => (Ok success, s2, probes ++ t1 ++ t2)
              | (Throw _, s2, t2) => (Ok false, s2, probes ++ t1 ++ t2)
              end
          | (Throw _, s1, t1) => (Ok false, s1, probes ++ t1)
          end
      end).
  { unfold save, save_try, try_catch, bind. rewrite filter_existsSync_run.
    fold existingPaths probes.
    destruct existingPaths as [|p ps]; simpl; [by rewrite !app_nil_r|].
    destruct (getCacheFilePath host key s) as [[[cachePath|e] s1] t1];
      unfold ret; simpl; [|by rewrite app_nil_r].
    destruct (compressWithZstd host cachePath (p :: ps) compressionLevel s1)
      as [[[[]|e] s2] t2]; simpl; by rewrite !app_nil_r. }
  rewrite Hrun. clear Hrun.
  destruct existingPaths as [|p ps].
  - split; [done|].
    unfold probes. clear. induction paths as [|q qs IH]; [done|]. apply IH.
  - destruct (getCacheFilePath host key s) as [[[cachePath|e] s1] t1]; [|done].
    destruct (compressWithZstd_returns host cachePath (p :: ps) compressionLevel s1)
      as [success Hc].
    exists success. split; [done|].
    destruct (compressWithZstd host cachePath (p :: ps) compressionLevel s1)
      as [[r s2] t2].
    unfold value in Hc. simpl in Hc. by subst r.
Qed.


(** C10. With neither [RUNNER_TOOL_CACHE] nor [HOME] in the environment
    the cache directory is ["/tmp/.local-cache"]; [getCacheDir] returns it
    as it is when it exists, and creates it with
    [fs.mkdirSync(cacheDir, {recursive: true})] first when it does not. *)
Theorem getCacheDir_default (s : state) :
  env host s "RUNNER_TOOL_CACHE" = None →
  env host s "HOME" = None →
  let cacheDir := js "/tmp/.local-cache" in
  getCacheDir host s
  = if fs_existsSync host cacheDir s then (Ok cacheDir, s, [EvExistsSync cacheDir])
    else match fs_mkdirSync host cacheDir s with
         | (Ok _, s') =>
             (Ok cacheDir, s', [EvExistsSync cacheDir; EvMkdirSync cacheDir])
         | (Throw e, s') =>
             (Throw e, s', [EvExistsSync cacheDir; EvMkdirSync cacheDir])
         end.
Proof.
  intros Htool Hhome. rewrite getCacheDir_run. unfold resolvedCacheDir.
  rewrite Htool, Hhome. reflexivity.
Qed.

End Operations.

(** ** Runs on the simulated machine *)

(** The simulated machine prints numbers as JavaScript does. *)
Example Number_toString_examples :
  Number.toString <$> [3; -19; 1.5; 0x1.999999999999ap-4; 0x1p-20; 1e20; 1e21;
                       0x1p+1023; 0x0.0000000000001p-1022; 0; -0;
                       nan; infinity; neg_infinity]%float
  = js <$> ["3"; "-19"; "1.5"; "0.1"; "9.5367431640625e-7";
            "100000000000000000000"; "1e+21"; "8.98846567431158e+307";
            "5e-324"; "0"; "0"; "NaN"; "Infinity"; "-Infinity"]%string.
Proof. vm_compute. reflexivity. Qed.

(** C3, as the specification words it, fails: on a fresh runner, where
    [/tmp/.local-cache] is not there yet, a [lookup] creates it. *)
Lemma lookup_creates_cache_directory :
  ¬ lookup_leaves_untouched Sim.host (js "k") [] Sim.fresh.
Proof.
  intros [Hstate _].
  apply (f_equal (λ m, length (Sim.files m))) in Hstate.
  vm_compute in Hstate. discriminate.
Qed.


Example restore_on_sealed_runner :
  value (restore Sim.host [] (js "b") [] (js "/ro") sealed)
  = Ok (mkRestoreResult true (Some (js "b")))
  ∧ omap extraction_dir (trace (restore Sim.host [] (js "b") [] (js "/ro") sealed))
    = [js "/runner/tmp"].
Proof. vm_compute. done. Qed.


Example lookup_on_fresh_runner :
  value (lookup Sim.host (js "k") [] Sim.fresh)
  = Ok (mkLookupResult false None)
  ∧ Sim.files (final (lookup Sim.host (js "k") [] Sim.fresh))
    = js "/tmp/.local-cache" :: Sim.files Sim.fresh
  ∧ trace (lookup Sim.host (js "k") [] Sim.fresh)
    = [EvExistsSync (js "/tmp/.local-cache");
       EvMkdirSync (js "/tmp/.local-cache");
       EvExistsSync (js "/tmp/.local-cache/k.tar.zst")].
Proof. vm_compute. done. Qed.

(** The environment of the fresh runner has neither variable. *)
Lemma getCacheDir_default_witness :
  env Sim.host Sim.fresh "RUNNER_TOOL_CACHE" = None
  ∧ env Sim.host Sim.fresh "HOME" = None
  ∧ value (getCacheDir Sim.host Sim.fresh) = Ok (js "/tmp/.local-cache").
Proof.
  split; [reflexivity|]. split; [reflexivity|].
  rewrite (getCacheDir_default Sim.host Sim.fresh eq_refl eq_refl).
  reflexivity.
Defined.

(** [lookup(k, [r1, r2])] where only [r2] has an archive. *)
Example lookup_second_restore_key :
  value (lookup Sim.host (js "k") [js "r1"; js "b"] Sim.warm)
  = Ok (mkLookupResult false (Some (js "b")))
  ∧ final (lookup Sim.host (js "k") [js "r1"; js "b"] Sim.warm) = Sim.warm
  ∧ trace (lookup Sim.host (js "k") [js "r1"; js "b"] Sim.warm)
    = [EvExistsSync (js "/home/ci/.local-cache");
       EvExistsSync (js "/home/ci/.local-cache/k.tar.zst");
       EvExistsSync (js "/home/ci/.local-cache");
       EvExistsSync (js "/home/ci/.local-cache/r1.tar.zst");
       EvExistsSync (js "/home/ci/.local-cache");
       EvExistsSync (js "/home/ci/.local-cache/b.tar.zst")].
Proof. vm_compute. done. Qed.

(** The archive of [a] exists but is corrupt: [restore] passes it over,
    finds no archive for [zz], and restores [b] without a hit. *)
Example restore_skips_failed_archive :
  value (restore Sim.host [] (js "a") [js "zz"; js "b"] (js "/work") Sim.warm)
  = Ok (mkRestoreResult false (Some (js "b")))
  ∧ codec_calls
      (trace (restore Sim.host [] (js "a") [js "zz"; js "b"] (js "/work") Sim.warm))
    = [EvDecompress (js "/home/ci/.local-cache/a.tar.zst") (js "/work");
       EvDecompress (js "/home/ci/.local-cache/b.tar.zst") (js "/work")].
Proof. vm_compute. done. Qed.

(** A primary key that restores consults no restore key. *)
Example restore_primary_hit :
  value (restore Sim.host [] (js "b") [js "a"; js "b"] (js "/work") Sim.warm)
  = Ok (mkRestoreResult true (Some (js "b")))
  ∧ codec_calls
      (trace (restore Sim.host [] (js "b") [js "a"; js "b"] (js "/work") Sim.warm))
    = [EvDecompress (js "/home/ci/.local-cache/b.tar.zst") (js "/work")].
Proof. vm_compute. done. Qed.

(** Keys never saved: no hit, no key, no decompression. *)
Example restore_nothing_saved :
  value (restore Sim.host [] (js "x") [js "y"; js "z"] (js "/tmp/out") Sim.warm)
  = Ok (mkRestoreResult false None)
  ∧ codec_calls
      (trace (restore Sim.host [] (js "x") [js "y"; js "z"] (js "/tmp/out") Sim.warm))
    = [].
Proof. vm_compute. done. Qed.

(** No path exists: [false], and the codec is not entered. *)
Example save_nothing_to_cache :
  save Sim.host [js "/nope"; js "/work/dist"] (js "k") 3%float Sim.warm
  = (Ok false, Sim.warm, [EvExistsSync (js "/nope"); EvExistsSync (js "/work/dist")]).
Proof. vm_compute. done. Qed.

(** [save] then [lookup], with the file name of the sanitised key. *)
Example save_then_lookup :
  let saved := save Sim.host [js "/work/node_modules"; js "/nope"]
                 (js "linux-node-abc123") 3%float Sim.warm in
  value saved = Ok true
  ∧ codec_calls (trace saved)
    = [EvCompress (js "/home/ci/.local-cache/linux_node_abc123.tar.zst")
         [js "/work/node_modules"] 3]
  ∧ value (lookup Sim.host (js "linux-node-abc123") [js "linux-node-"] (final saved))
    = Ok (mkLookupResult true (Some (js "linux-node-abc123"))).
Proof. vm_compute. done. Qed.

(** The cache directory cannot be created: the bodies throw, the
    operations return their fallback. *)
Example failures_are_caught :
  value (save_try Sim.host [js "/work/node_modules"] (js "k") 3%float Sim.locked)
  = Throw (js "EACCES: permission denied, mkdir")
  ∧ value (save Sim.host [js "/work/node_modules"] (js "k") 3%float Sim.locked) = Ok false
  ∧ value (restore Sim.host [] (js "k") [js "r"] (js "/work") Sim.locked)
    = Ok (mkRestoreResult false None)
  ∧ value (lookup Sim.host (js "k") [js "r"] Sim.locked)
    = Ok (mkLookupResult false None).
Proof. vm_compute. done. Qed.

(** * Further properties *)

(** ** Archive paths *)

Lemma split_no_sep_id (sep : N) (f : jsstring) : sep ∉ f → split sep f = [f].
Proof.
  induction f as [|c f IH]; [done|]. intros H. simpl.
  destruct (N.eqb_spec c sep) as [->|Hne]; [by destruct H; left|].
  rewrite IH; [done|]. intros ?. apply H. by right.
Qed.

Lemma split_app_sep (sep : N) (a b : jsstring) :
  split sep (a ++ sep :: b) = split sep a ++ split sep b.
Proof.
  induction a as [|c a IH]; simpl.
  - by rewrite N.eqb_refl.
  - destruct (c =? sep); [by rewrite IH|]. rewrite IH.
    pose proof (split_nonempty sep a). by destruct (split sep a).
Qed.

Lemma normalizeSegments_snoc (allow : bool) (acc segs : list jsstring)
    (f : jsstring) :
  ordinary f →
  path.normalizeSegments allow acc (segs ++ [f])
  = path.normalizeSegments allow acc segs ++ [f].
Proof.
  intros (Hne & _ & Hdot & Hdotdot). revert acc.
  induction segs as [|seg segs IH]; intros acc; simpl.
  - rewrite bool_decide_eq_false_2 by (intros [?|?]; done).
    rewrite bool_decide_eq_false_2 by done. simpl. by rewrite reverse_cons.
  - repeat case_match; apply IH.
Qed.

Lemma array_join_snoc (sep : jsstring) (l : list jsstring) (f : jsstring) :
  array_join sep (l ++ [f])
  = match l with [] => f | _ => array_join sep l ++ sep ++ f end.
Proof.
  induction l as [|x l IH]; [done|]. simpl app.
  change (array_join sep (x :: l ++ [f]))
    with (match l ++ [f] with [] => x | _ => x ++ sep ++ array_join sep (l ++ [f]) end).
  rewrite IH. destruct l as [|y l]; simpl; [done|].
  by rewrite <- !app_assoc.
Qed.

Lemma last_ordinary (f : jsstring) :
  ordinary f → ∃ c, last f = Some c ∧ (c =? path.slash) = false.
Proof.
  intros (Hne & Hslash & _).
  destruct (last f) as [c|] eqn:E; [|by apply last_None in E].
  exists c. split; [done|]. apply N.eqb_neq. intros ->.
  apply Hslash. apply last_Some in E as [l' ->]. apply elem_of_app. right. left.
Qed.

(** [path.join(dir, f)] for a plain file name [f]: the name [f] below a
    directory part that depends on [dir] only. *)
Lemma join_dir_file (dir : jsstring) :
  ∃ parent,
    (parent = [] ∨ last parent = Some path.slash)
    ∧ ∀ f, ordinary f → path.join [dir; f] = parent ++ f.
Proof.
  destruct dir as [|c dir].
  - exists []. split; [by left|]. intros f Hf.
    destruct (last_ordinary f Hf) as (d & Hlast & Hd).
    destruct Hf as (Hne & Hslash & Hdot & Hdotdot).
    unfold path.join. rewrite filter_cons_False by (intros H; by apply H).
    rewrite filter_cons_True by done. rewrite filter_nil.
    simpl array_join. unfold path.normalize.
    destruct f as [|x f'] eqn:Ef; [done|]. rewrite <- Ef in *.
    assert (Hx : (x =? path.slash) = false).
    { apply N.eqb_neq. intros ->. apply Hslash. rewrite Ef. left. }
    rewrite Hx, Hlast, Hd. simpl negb.
    unfold path.normalizeString. rewrite split_no_sep_id by done. simpl.
    rewrite bool_decide_eq_false_2 by (intros [?|?]; done).
    rewrite bool_decide_eq_false_2 by done. simpl.
    rewrite Ef. simpl. by rewrite <- Ef.
  - set (abs := c =? path.slash).
    set (X := path.normalizeSegments (negb abs) [] (split path.slash (c :: dir))).
    exists ((if abs then [path.slash] else [])
            ++ match X with [] => [] | _ => array_join [path.slash] X ++ [path.slash] end).
    split.
    { destruct X as [|x X'] eqn:EX.
      - rewrite app_nil_r. destruct abs; [by right | by left].
      - right. rewrite app_assoc. apply last_snoc. }
    intros f Hf.
    destruct (last_ordinary f Hf) as (d & Hlast & Hd).
    pose proof Hf as (Hne & Hslash & Hdot & Hdotdot).
    unfold path.join. rewrite !filter_cons_True by done. rewrite filter_nil.
    change (array_join [path.slash] [c :: dir; f])
      with (c :: dir ++ path.slash :: f).
    assert (Hl : last ((c :: dir) ++ path.slash :: f) = Some d).
    { by rewrite cons_middle, app_assoc, last_app, Hlast. }
    unfold path.normalize. fold abs. simpl app in Hl.
    rewrite Hl, Hd. unfold path.normalizeString.
    change (c :: dir ++ path.slash :: f) with ((c :: dir) ++ path.slash :: f).
    rewrite split_app_sep, (split_no_sep_id _ f) by done.
    rewrite normalizeSegments_snoc by done. fold X.
    rewrite array_join_snoc.
    destruct X as [|x X'] eqn:EX.
    + destruct f as [|y f']; [done|]. by destruct abs.
    + destruct (array_join [path.slash] (x :: X') ++ [path.slash] ++ f) eqn:E.
      { apply (f_equal length) in E. rewrite !length_app in E. simpl in E. lia. }
      rewrite <- E. destruct abs; simpl; by rewrite <- ?app_assoc.
Qed.

Lemma safeKey_chars (key : jsstring) :
  Forall (λ c, c ≠ path.slash ∧ c ≠ 46) (safeKey key).
Proof.
  apply Forall_fmap, Forall_forall. intros c _. simpl.
  destruct (is_alnum c) eqn:E; [|by split].
  unfold is_alnum in E. unfold path.slash.
  repeat (apply orb_prop in E; destruct E as [E|E]);
    apply andb_prop in E; destruct E as [E1 E2];
    apply N.leb_le in E1; apply N.leb_le in E2; lia.
Qed.

Lemma archiveName_ordinary (key : jsstring) : ordinary (archiveName key).
Proof.
  unfold ordinary, archiveName. repeat split.
  - by destruct (safeKey key).
  - intros [H|H]%elem_of_app.
    + pose proof (safeKey_chars key) as HF. rewrite Forall_forall in HF.
      by apply HF in H as [? _].
    + revert H. apply (bool_decide_eq_false_1 _). vm_compute. reflexivity.
  - intros H. apply (f_equal length) in H. rewrite length_app in H.
    vm_compute (length (js ".tar.zst")) in H. vm_compute (length path.dot) in H. lia.
  - intros H. apply (f_equal length) in H. rewrite length_app in H.
    vm_compute (length (js ".tar.zst")) in H. vm_compute (length path.dotdot) in H. lia.
Qed.

Section ArchivePaths.
Context {state : Type} (host : Host state).

(** X1. The archives of a machine state lie side by side: every archive
    path is one directory part, the same for all keys and empty or ending
    in a separator, followed by the file name of the key, which holds no
    separator. No key, whatever it contains, names a file outside of that
    directory. *)
Theorem archive_paths_flat (s : state) :
  ∃ parent,
    (parent = [] ∨ last parent = Some path.slash)
    ∧ ∀ key,
        (path.slash ∉ archiveName key)
        ∧ value (getCacheFilePath host key s)
          = match value (getCacheDir host s) with
            | Ok _ => Ok (parent ++ archiveName key)
            | Throw e => Throw e
            end.
Proof.
  unfold getCacheFilePath, bind, ret.
  destruct (getCacheDir host s) as [[[dir|e] s'] t].
  - destruct (join_dir_file dir) as (parent & Hparent & Hjoin).
    exists parent. split; [done|]. intros key.
    pose proof (archiveName_ordinary key) as Hname.
    split; [apply Hname|]. unfold value. simpl. f_equal.
    by apply Hjoin.
  - exists []. split; [by left|]. intros key.
    split; [apply archiveName_ordinary | done].
Qed.

(** X2. Two keys have the same archive path exactly when they have the
    same sanitised form; in particular a key and its sanitised form share
    one archive, and sanitising twice changes nothing. *)
Theorem archive_shared_iff_same_safeKey (k1 k2 dir : jsstring) (s : state) :
  value (getCacheDir host s) = Ok dir →
  (value (getCacheFilePath host k1 s) = value (getCacheFilePath host k2 s)
   ↔ safeKey k1 = safeKey k2)
  ∧ safeKey (safeKey k1) = safeKey k1
  ∧ value (getCacheFilePath host (safeKey k1) s)
    = value (getCacheFilePath host k1 s).
Proof.
  intros Hdir.
  assert (Hidem : safeKey (safeKey k1) = safeKey k1).
  { unfold safeKey. rewrite <- list_fmap_compose. apply list_fmap_ext.
    intros _ c _. simpl. destruct (is_alnum c) eqn:E; [by rewrite E | done]. }
  assert (Hpath : ∀ key, value (getCacheFilePath host key s)
                         = Ok (path.join [dir; archiveName key])).
  { intros key. unfold getCacheFilePath, bind, ret.
    destruct (getCacheDir host s) as [[[d|e] s'] t]; [|done].
    unfold value in *. simpl in *. by simplify_eq. }
  split; [|split; [done|]].
  - rewrite !Hpath. destruct (join_dir_file dir) as (parent & _ & Hjoin).
    rewrite !Hjoin by apply archiveName_ordinary. unfold archiveName. split.
    + intros [= H]. by apply app_inv_head, app_inv_tail in H.
    + by intros ->.
  - rewrite !Hpath. unfold archiveName. by rewrite Hidem.
Qed.

End ArchivePaths.

(** ** Path lists *)

Lemma blank_array_join (l : list jsstring) :
  Forall blank l → blank (array_join [newline] l).
Proof.
  induction 1 as [|x l Hx Hl IH]; [constructor|].
  destruct l as [|y l]; [done|].
  change (array_join [newline] (x :: y :: l))
    with (x ++ [newline] ++ array_join [newline] (y :: l)).
  unfold blank in *. rewrite !Forall_app. repeat split; try done.
  by repeat constructor.
Qed.

Lemma elem_of_array_join (sep : jsstring) (l : list jsstring) (x : jsstring) (c : N) :
  x ∈ l → c ∈ x → c ∈ array_join sep l.
Proof.
  induction l as [|y l IH]; [by intros ?%elem_of_nil|].
  intros Hx Hc. destruct l as [|z l].
  - apply list_elem_of_singleton in Hx. by subst.
  - change (array_join sep (y :: z :: l))
      with (y ++ sep ++ array_join sep (z :: l)).
    apply elem_of_cons in Hx as [->|Hx]; rewrite !elem_of_app; [by left|].
    right. right. by apply IH.
Qed.

Lemma trim_fixed (t : jsstring) :
  (∀ c, head t = Some c → is_whitespace c = false) →
  (∀ c, last t = Some c → is_whitespace c = false) →
  trim t = t.
Proof.
  intros Hhd Hlast. unfold trim, trimEnd, trimStart.
  assert (H1 : drop_while is_whitespace t = t).
  { destruct t as [|c t]; [done|]. simpl. by rewrite (Hhd c eq_refl). }
  rewrite H1.
  assert (H2 : drop_while is_whitespace (reverse t) = reverse t).
  { destruct (reverse t) as [|c u] eqn:E; [done|]. simpl.
    rewrite (Hlast c); [done|]. by rewrite <- head_reverse, E. }
  by rewrite H2, reverse_involutive.
Qed.

Lemma split_array_join (sep : N) (l : list jsstring) :
  l ≠ [] → Forall (λ x, sep ∉ x) l → split sep (array_join [sep] l) = l.
Proof.
  induction l as [|x l IH]; [done|]. intros _ [Hx Hl]%Forall_cons.
  destruct l as [|y l]; [by apply split_no_sep_id|].
  change (array_join [sep] (x :: y :: l))
    with (x ++ sep :: array_join [sep] (y :: l)).
  rewrite split_app_sep, split_no_sep_id by done.
  by rewrite IH.
Qed.

Lemma resolvePaths_array_join (l : list jsstring) :
  Forall (λ e, e ≠ [] ∧ (newline ∉ e) ∧ trim e = e) l →
  resolvePaths (array_join [newline] l) = l.
Proof.
  intros H. unfold resolvePaths. destruct l as [|x l']; [done|].
  set (l := x :: l') in *.
  rewrite split_array_join; [|done|].
  2: { eapply Forall_impl; [exact H|]. by intros e (_ & ? & _). }
  assert (Htrim : trim <$> l = l).
  { clear -H. induction H as [|e l (_ & _ & He) _ IH]; [done|].
    by rewrite fmap_cons, He, IH. }
  rewrite Htrim. clear -H.
  induction H as [|e l (He & _) _ IH]; [done|].
  by rewrite filter_cons_True, IH.
Qed.

(** X3. [resolvePaths] returns no path exactly when its input is blank:
    empty, or made of whitespace and line breaks only. *)
Theorem resolvePaths_nil_iff_blank (raw : jsstring) :
  resolvePaths raw = [] ↔ blank raw.
Proof.
  unfold resolvePaths. split.
  - intros H. rewrite <- (split_join newline raw). apply blank_array_join.
    apply Forall_forall. intros line Hline. apply trim_nil_iff.
    destruct (trim line) as [|c t] eqn:E; [done|]. exfalso.
    assert (Hin : trim line ∈ filter (λ s, s ≠ []) (trim <$> split newline raw)).
    { apply list_elem_of_filter. split; [by rewrite E|].
      by apply list_elem_of_fmap_2. }
    rewrite H in Hin. by apply elem_of_nil in Hin.
  - intros Hraw.
    destruct (filter _ _) as [|e es] eqn:E; [done|]. exfalso.
    assert (He : e ∈ filter (λ s, s ≠ []) (trim <$> split newline raw))
      by (rewrite E; left).
    apply list_elem_of_filter in He as [Hne (line & -> & Hline)%list_elem_of_fmap].
    apply Hne, trim_nil_iff. apply Forall_forall. intros c Hc.
    unfold blank in Hraw. rewrite Forall_forall in Hraw. apply Hraw.
    rewrite <- (split_join newline raw). by eapply elem_of_array_join.
Qed.

(** X4. Parsing is stable: the paths [resolvePaths] returns, joined with
    newlines and parsed again, are the same paths. *)
Theorem resolvePaths_round_trip (raw : jsstring) :
  resolvePaths (array_join [newline] (resolvePaths raw)) = resolvePaths raw.
Proof.
  apply resolvePaths_array_join. unfold resolvePaths.
  apply Forall_forall.
  intros e [Hne (line & -> & Hline)%list_elem_of_fmap]%list_elem_of_filter.
  destruct (trim_is_trim_of line) as ((pre & post & Hl & _) & Hhd & Hlast).
  split; [done|]. split; [|by apply trim_fixed].
  intros Hnl.
  pose proof (split_no_sep newline raw) as Hsplit.
  rewrite Forall_forall in Hsplit. apply (Hsplit line Hline).
  rewrite Hl, !elem_of_app. right. by left.
Qed.

(** ** The codec *)

Section Codec.
Context {state : Type} (host : Host state).

Lemma compressWithZstd_true (archivePath : jsstring) (paths : list jsstring)
    (level : float) (s : state) :
  value (compressWithZstd host archivePath paths level s) = Ok true →
  ∃ zstdPath s2 s3,
    tools_found host s = Some (zstdPath, s2)
    ∧ (if fs_existsSync host (path.dirname archivePath) s2 then s3 = s2
       else fs_mkdirSync host (path.dirname archivePath) s2 = (Ok (), s3))
    ∧ exec_exec host (js "tar")
        (createArgs host zstdPath level archivePath paths) s3
      = (Ok 0%Z, final (compressWithZstd host archivePath paths level s)).
Proof.
  unfold tools_found, compressWithZstd, bind, try_catch, emit, which, throw,
    ret, existsSync, mkdirSync, exec, createArgs, value, final.
  destruct (io_which host (js "tar") s) as [[tar|e1] s1]; simpl; [|done].
  destruct (io_which host (js "zstd") s1) as [[zstd|e2] s2]; simpl; [|done].
  destruct (fs_existsSync host (path.dirname archivePath) s2) eqn:Hdir; simpl.
  - destruct (exec_exec host _ _ s2) as [[code|e3] s5] eqn:Hexec; simpl; [|done].
    destruct (code =? 0)%Z eqn:Hcode; simpl; [|done].
    apply Z.eqb_eq in Hcode. subst code. intros _.
    exists zstd, s2, s2. by rewrite Hdir.
  - destruct (fs_mkdirSync host _ s2) as [[[]|e] s3] eqn:Hmkdir; simpl; [|done].
    destruct (exec_exec host _ _ s3) as [[code|e3] s5] eqn:Hexec; simpl; [|done].
    destruct (code =? 0)%Z eqn:Hcode; simpl; [|done].
    apply Z.eqb_eq in Hcode. subst code. intros _.
    exists zstd, s2, s3. by rewrite Hdir.
Qed.

Lemma decompressWithZstd_true (archivePath targetDir : jsstring) (s : state) :
  value (decompressWithZstd host archivePath targetDir s) = Ok true →
  ∃ zstdPath s2,
    tools_found host s = Some (zstdPath, s2)
    ∧ fs_existsSync host archivePath s2 = true
    ∧ ∃ dir s3,
        (dir = targetDir ∨ fallback_dir host dir)
        ∧ exec_exec host (js "tar") (extractArgs zstdPath archivePath dir) s3
          = (Ok 0%Z, final (decompressWithZstd host archivePath targetDir s)).
Proof.
  unfold tools_found, decompressWithZstd, bind, try_catch, emit, which, throw,
    ret, existsSync, mkdirSync, accessSync, cwd, getenv, exec, extractArgs,
    value, final, fallback_dir.
  destruct (io_which host (js "tar") s) as [[tar|e1] s1]; simpl; [|done].
  destruct (io_which host (js "zstd") s1) as [[zstd|e2] s2]; simpl; [|done].
  destruct (fs_existsSync host archivePath s2) eqn:Harchive; simpl; [|done].
  intros Htrue. exists zstd, s2. split; [done|]. split; [done|].
  revert Htrue. repeat case_match; simplify_eq; simpl; try done; intros _.
  all: match goal with
       | H : exec_exec host _ _ ?s0 = (Ok ?z, _), Hz : negb (?z =? 0)%Z = false |- _ =>
           apply negb_false_iff, Z.eqb_eq in Hz; subst z;
           eexists _, s0; split; [|exact H]
       end.
  all: eauto.
Qed.

(** X5. Neither codec function throws, and each returns [true] only after
    a [tar] that exited with code 0: for a compression the tools were
    found and the directory of the archive was there or was created; for
    a decompression the tools were found, the archive was there, and
    [tar] extracted into the target directory or one the codec falls back
    to. So a missing tool, a directory of the archive that cannot be
    created, a missing archive, and a [tar] that throws or exits with
    another code are all reported as [false]. *)
Theorem codec_failures_give_false (archivePath : jsstring) (paths : list jsstring)
    (level : float) (targetDir : jsstring) (s : state) :
  let c := compressWithZstd host archivePath paths level s in
  let d := decompressWithZstd host archivePath targetDir s in
  (∃ success, value c = Ok success)
  ∧ (∃ success, value d = Ok success)
  ∧ (value c = Ok true →
     ∃ zstdPath s2 s3,
       tools_found host s = Some (zstdPath, s2)
       ∧ (if fs_existsSync host (path.dirname archivePath) s2 then s3 = s2
          else fs_mkdirSync host (path.dirname archivePath) s2 = (Ok (), s3))
       ∧ exec_exec host (js "tar")
           (createArgs host zstdPath level archivePath paths) s3
         = (Ok 0%Z, final c))
  ∧ (value d = Ok true →
     ∃ zstdPath s2,
       tools_found host s = Some (zstdPath, s2)
       ∧ fs_existsSync host archivePath s2 = true
       ∧ ∃ dir s3,
           (dir = targetDir ∨ fallback_dir host dir)
           ∧ exec_exec host (js "tar") (extractArgs zstdPath archivePath dir) s3
             = (Ok 0%Z, final d)).
Proof.
  intros c d. split; [apply compressWithZstd_returns|].
  split; [apply decompressWithZstd_returns|].
  split; [apply compressWithZstd_true | apply decompressWithZstd_true].
Qed.

(** X6. When [tar] or [zstd] is not installed both codec functions return
    [false] after the lookups of the tools: no command is run, and the
    file system is neither probed nor changed. *)
Theorem codec_without_tools (archivePath : jsstring) (paths : list jsstring)
    (level : float) (targetDir : jsstring) (s s' : state) (lookups : list Event) :
  tool_missing host s = Some (s', lookups) →
  compressWithZstd host archivePath paths level s
  = (Ok false, s', EvCompress archivePath paths level :: lookups)
  ∧ decompressWithZstd host archivePath targetDir s
    = (Ok false, s', EvDecompress archivePath targetDir :: lookups).
Proof.
  unfold tool_missing, compressWithZstd, decompressWithZstd, bind, try_catch,
    emit, which, throw, ret.
  destruct (io_which host (js "tar") s) as [[tar|e] s1]; simpl.
  - destruct (io_which host (js "zstd") s1) as [[zstd|e] s2]; simpl; [done|].
    by intros [= <- <-].
  - by intros [= <- <-].
Qed.

(** X7. [decompressWithZstd] on an archive that does not exist returns
    [false] after the probe of the archive: [tar] is not run and the target
    directory is neither probed nor created. *)
Theorem decompress_missing_archive (archivePath targetDir zstdPath : jsstring)
    (s s2 : state) :
  tools_found host s = Some (zstdPath, s2) →
  fs_existsSync host archivePath s2 = false →
  decompressWithZstd host archivePath targetDir s
  = (Ok false, s2,
     [EvDecompress archivePath targetDir; EvWhich (js "tar");
      EvWhich (js "zstd"); EvExistsSync archivePath]).
Proof.
  unfold tools_found, decompressWithZstd, bind, try_catch, emit, which, throw,
    ret, existsSync.
  destruct (io_which host (js "tar") s) as [[tar|e] s1]; simpl; [|done].
  destruct (io_which host (js "zstd") s1) as [[zstd|e] s3]; simpl; [|done].
  intros [= <- <-] Harchive. by rewrite Harchive.
Qed.

(** X8. A decompression that returns [true] has run [tar], as the last
    thing it did, to extract this archive, and [tar] exited with code 0. *)
Theorem decompress_true_tar_ok (archivePath targetDir : jsstring) (s : state) :
  value (decompressWithZstd host archivePath targetDir s) = Ok true →
  ∃ zstdPath dir s_before,
    last (trace (decompressWithZstd host archivePath targetDir s))
    = Some (EvExec (js "tar") (extractArgs zstdPath archivePath dir))
    ∧ exec_exec host (js "tar") (extractArgs zstdPath archivePath dir) s_before
      = (Ok 0%Z, final (decompressWithZstd host archivePath targetDir s)).
Proof.
  unfold decompressWithZstd, bind, try_catch, emit, which, existsSync, mkdirSync,
    accessSync, cwd, exec, getenv, ret, throw, extractArgs.
  repeat case_match; simplify_eq; unfold value; simpl; try done; intros _.
  all: match goal with
       | H : exec_exec host _ _ ?s0 = (Ok ?z, _), Hz : negb (?z =? 0)%Z = false |- _ =>
           apply negb_false_iff, Z.eqb_eq in Hz; subst z;
           eexists _, _, s0; split; [|exact H]
       end.
  all: reflexivity.
Qed.

(** X9. A target directory that exists but cannot be written does not make
    the decompression fail: the archive is extracted into [RUNNER_TEMP], or
    into [/tmp] when that variable is not set, and the result is that of
    [tar] there. *)
Theorem decompress_unwritable_target (archivePath targetDir zstdPath : jsstring)
    (e : Err) (s s2 s3 : state) :
  tools_found host s = Some (zstdPath, s2) →
  fs_existsSync host archivePath s2 = true →
  fs_existsSync host targetDir s2 = true →
  fs_accessSync host targetDir s2 = (Throw e, s3) →
  let tempDir := or_else (env host s3 "RUNNER_TEMP") (js "/tmp") in
  let args := extractArgs zstdPath archivePath tempDir in
  let x := exec_exec host (js "tar") args s3 in
  decompressWithZstd host archivePath targetDir s
  = (Ok (exited_zero x.1), x.2,
     [EvDecompress archivePath targetDir; EvWhich (js "tar");
      EvWhich (js "zstd"); EvExistsSync archivePath; EvExistsSync targetDir;
      EvAccessSync targetDir; EvExec (js "tar") args]).
Proof.
  unfold tools_found, decompressWithZstd, bind, try_catch, emit, which, throw,
    ret, existsSync, accessSync, getenv, exec, extractArgs.
  destruct (io_which host (js "tar") s) as [[tar|e1] s1]; simpl; [|done].
  destruct (io_which host (js "zstd") s1) as [[zstd|e2] s4]; simpl; [|done].
  intros [= <- <-] Harchive Htarget Haccess. rewrite Harchive. simpl.
  rewrite Htarget. simpl. rewrite Haccess. simpl.
  destruct (exec_exec host _ _ s3) as [[code|e3] s5]; simpl; [|done].
  by destruct (code =? 0)%Z.
Qed.

(** X10. A target directory that does not exist and cannot be created does
    not make the decompression fail either: with a writable working
    directory the archive is extracted into [process.cwd()]. *)
Theorem decompress_uncreatable_target (archivePath targetDir zstdPath here : jsstring)
    (e : Err) (s s2 s3 s4 s5 : state) :
  tools_found host s = Some (zstdPath, s2) →
  fs_existsSync host archivePath s2 = true →
  fs_existsSync host targetDir s2 = false →
  fs_mkdirSync host targetDir s2 = (Throw e, s3) →
  process_cwd host s3 = (Ok here, s4) →
  fs_accessSync host here s4 = (Ok (), s5) →
  let args := extractArgs zstdPath archivePath here in
  let x := exec_exec host (js "tar") args s5 in
  decompressWithZstd host archivePath targetDir s
  = (Ok (exited_zero x.1), x.2,
     [EvDecompress archivePath targetDir; EvWhich (js "tar");
      EvWhich (js "zstd"); EvExistsSync archivePath; EvExistsSync targetDir;
      EvMkdirSync targetDir; EvCwd; EvAccessSync here; EvExec (js "tar") args]).
Proof.
  unfold tools_found, decompressWithZstd, bind, try_catch, emit, which, throw,
    ret, existsSync, mkdirSync, cwd, accessSync, getenv, exec, extractArgs.
  destruct (io_which host (js "tar") s) as [[tar|e1] s1]; simpl; [|done].
  destruct (io_which host (js "zstd") s1) as [[zstd|e2] s6]; simpl; [|done].
  intros [= <- <-] Harchive Htarget Hmkdir Hcwd Haccess.
  rewrite Harchive. simpl. rewrite Htarget. simpl. rewrite Hmkdir. simpl.
  rewrite Hcwd. simpl. rewrite Haccess. simpl.
  destruct (exec_exec host _ _ s5) as [[code|e3] s7]; simpl; [|done].
  by destruct (code =? 0)%Z.
Qed.

(** X11. A compression that returns [true] has run [tar], as the last
    thing it did, to write this archive from exactly the paths it was
    given, at the level it was given as the host prints that number, and
    [tar] exited with code 0. *)
Theorem compress_true_tar_ok (archivePath : jsstring) (paths : list jsstring)
    (level : float) (s : state) :
  value (compressWithZstd host archivePath paths level s) = Ok true →
  ∃ zstdPath s_before,
    last (trace (compressWithZstd host archivePath paths level s))
    = Some (EvExec (js "tar") (createArgs host zstdPath level archivePath paths))
    ∧ exec_exec host (js "tar") (createArgs host zstdPath level archivePath paths) s_before
      = (Ok 0%Z, final (compressWithZstd host archivePath paths level s)).
Proof.
  unfold compressWithZstd, bind, try_catch, emit, which, existsSync, mkdirSync,
    exec, ret, throw, createArgs.
  repeat case_match; simplify_eq; unfold value; simpl; try done; intros _.
  all: match goal with
       | H : exec_exec host _ _ ?s0 = (Ok ?z, _), Hz : negb (?z =? 0)%Z = false |- _ =>
           apply negb_false_iff, Z.eqb_eq in Hz; subst z;
           eexists _, s0; split; [|exact H]
       end.
  all: reflexivity.
Qed.

(** X12. Before it runs [tar], a compression creates the directory of the
    archive when it is missing; if that fails, it returns [false] and [tar]
    is not run. *)
Theorem compress_uncreatable_directory (archivePath zstdPath : jsstring)
    (paths : list jsstring) (level : float) (e : Err) (s s2 s3 : state) :
  tools_found host s = Some (zstdPath, s2) →
  fs_existsSync host (path.dirname archivePath) s2 = false →
  fs_mkdirSync host (path.dirname archivePath) s2 = (Throw e, s3) →
  compressWithZstd host archivePath paths level s
  = (Ok false, s3,
     [EvCompress archivePath paths level; EvWhich (js "tar");
      EvWhich (js "zstd"); EvExistsSync (path.dirname archivePath);
      EvMkdirSync (path.dirname archivePath)]).
Proof.
  unfold tools_found, compressWithZstd, bind, try_catch, emit, which, throw,
    ret, existsSync, mkdirSync.
  destruct (io_which host (js "tar") s) as [[tar|e1] s1]; simpl; [|done].
  destruct (io_which host (js "zstd") s1) as [[zstd|e2] s4]; simpl; [|done].
  intros [= <- <-] Hdir Hmkdir. rewrite Hdir. simpl. by rewrite Hmkdir.
Qed.

End Codec.

(** ** [lookup] and [restore] together *)

Section Together.
Context {state : Type} (host : Host state).

Lemma tryRestore_true_exists (targetDir key : jsstring) (s : state) :
  value (tryRestore host targetDir key s) = Ok true →
  value (cacheExists host key s) = Ok true.
Proof.
  rewrite tryRestore_run.
  by destruct (cacheExists host key s) as [[[[]|e] s1] t1].
Qed.

Lemma restore_for_after_lookup_for (targetDir : jsstring) (keys : list jsstring)
    (s : state) :
  match lookup_for host keys s with
  | (Ok r, s', t) =>
      matchedKey r = None →
      restore_for host keys targetDir s = (Ok (mkRestoreResult false None), s', t)
  | (Throw e, s', t) => restore_for host keys targetDir s = (Throw e, s', t)
  end.
Proof.
  revert s. induction keys as [|k ks IH]; intros s; [done|].
  simpl. unfold bind.
  destruct (cacheExists host k s) as [[[[]|e] s1] t1]; simpl; [done| |done].
  specialize (IH s1).
  destruct (lookup_for host ks s1) as [[[r|e] s2] t2]; simpl.
  - intros Hr. by rewrite (IH Hr).
  - by rewrite IH.
Qed.

Lemma codec_calls_app (t1 t2 : list Event) :
  codec_calls (t1 ++ t2) = codec_calls t1 ++ codec_calls t2.
Proof. apply List.filter_app. Qed.

Lemma tryRestore_codec_calls (targetDir key : jsstring) (s : state) :
  (length (codec_calls (trace (tryRestore host targetDir key s))) ≤ 1)%nat
  ∧ (value (tryRestore host targetDir key s) = Ok true →
     codec_calls (trace (tryRestore host targetDir key s)) ≠ []).
Proof.
  rewrite tryRestore_run.
  pose proof (store_calls_no_codec _ (cacheExists_store_calls host key s)) as H1.
  destruct (cacheExists host key s) as [[[[]|e] s1] t1]; simpl in *;
    rewrite ?codec_calls_app, ?H1; try (split; [simpl; lia | done]).
  pose proof (store_calls_no_codec _ (getCacheFilePath_store_calls host key s1)) as H2.
  destruct (getCacheFilePath host key s1) as [[[cachePath|e] s2] t2]; simpl in *;
    rewrite ?codec_calls_app, ?H1, ?H2; try (split; [simpl; lia | done]).
  rewrite decompressWithZstd_calls. split; [simpl; lia | done].
Qed.

Lemma runs_codec_calls_bound (targetDir : jsstring) (keys : list jsstring)
    (n : nat) (s : state) :
  (length (codec_calls (trace_of (take n (runs (tryRestore host targetDir) keys s))))
   ≤ length keys)%nat.
Proof.
  revert n s. induction keys as [|k ks IH]; intros n s.
  - simpl. by rewrite take_nil.
  - destruct n; [simpl; lia|].
    change (trace_of (take (S n) (runs (tryRestore host targetDir) (k :: ks) s)))
      with (trace (tryRestore host targetDir k s)
            ++ trace_of (take n (runs (tryRestore host targetDir) ks
                                   (final (tryRestore host targetDir k s))))).
    rewrite codec_calls_app, length_app.
    pose proof (tryRestore_codec_calls targetDir k s) as [Hk _].
    specialize (IH n (final (tryRestore host targetDir k s))).
    simpl length. lia.
Qed.

(** X13. A [restore] that reports a hit was given a state in which
    [lookup], for the same keys, reports the hit on the primary key too. *)
Theorem restore_hit_is_lookup_hit (paths : list jsstring) (primaryKey : jsstring)
    (restoreKeys : list jsstring) (targetDir : jsstring) (s : state)
    (r : RestoreResult) :
  value (restore host paths primaryKey restoreKeys targetDir s) = Ok r →
  restore_cacheHit r = true →
  value (lookup host primaryKey restoreKeys s)
  = Ok (mkLookupResult true (Some primaryKey)).
Proof.
  rewrite restore_scan. simpl runs. intros [= <-].
  pose proof (first_success_head primaryKey restoreKeys
                (tryRestore host targetDir primaryKey s)
                (runs (tryRestore host targetDir) restoreKeys
                   (final (tryRestore host targetDir primaryKey s)))) as H.
  destruct (first_success _ _) as [[n key]|]; simpl; [|done].
  destruct H as [H _]. intros Hn%H%tryRestore_true_exists.
  unfold lookup, lookup_try, try_catch, bind.
  destruct (cacheExists host primaryKey s) as [[v s1] t1].
  unfold value in Hn. simpl in Hn. by subst v.
Qed.

(** X14. Where [lookup] finds no key, [restore] for the same keys is the
    same run: it returns no key, makes the same calls, leaves the machine
    in the same state, and starts no decompression. *)
Theorem restore_after_empty_lookup (paths : list jsstring) (primaryKey : jsstring)
    (restoreKeys : list jsstring) (targetDir : jsstring) (s : state)
    (r : LookupResult) :
  value (lookup host primaryKey restoreKeys s) = Ok r →
  matchedKey r = None →
  restore host paths primaryKey restoreKeys targetDir s
  = (Ok (mkRestoreResult false None),
     final (lookup host primaryKey restoreKeys s),
     trace (lookup host primaryKey restoreKeys s))
  ∧ codec_calls (trace (restore host paths primaryKey restoreKeys targetDir s)) = [].
Proof.
  intros Hv Hr.
  assert (Hrun : restore host paths primaryKey restoreKeys targetDir s
                 = (Ok (mkRestoreResult false None),
                    final (lookup host primaryKey restoreKeys s),
                    trace (lookup host primaryKey restoreKeys s))).
  { revert Hv Hr.
    unfold restore, restore_try, lookup, lookup_try, try_catch, bind.
    destruct (cacheExists host primaryKey s) as [[[[]|e] s1] t1]; simpl.
    - intros [= <-]. done.
    - pose proof (restore_for_after_lookup_for targetDir restoreKeys s1) as H.
      destruct (lookup_for host restoreKeys s1) as [[[r'|e] s2] t2]; simpl.
      + intros [= <-] Hr. by rewrite (H Hr).
      + intros _ _. by rewrite H.
    - done. }
  split; [done|]. rewrite Hrun. unfold trace at 1. simpl.
  apply store_calls_no_codec.
  unfold lookup, lookup_try, try_catch, bind.
  pose proof (cacheExists_store_calls host primaryKey s) as Hk.
  destruct (cacheExists host primaryKey s) as [[[[]|e] s1] t1]; simpl in *;
    rewrite ?app_nil_r; try done.
  pose proof (lookup_for_store_calls host restoreKeys s1) as Hks.
  destruct (lookup_for host restoreKeys s1) as [[[v|e] s2] t2]; simpl in *;
    rewrite ?app_nil_r; by apply Forall_app.
Qed.

(** X15. [lookup] and [restore] report only a key they were asked for,
    and [restore] starts at most one decompression per key it was given;
    when it reports a key it has started at least one. *)
Theorem reported_key_was_requested (paths : list jsstring) (primaryKey : jsstring)
    (restoreKeys : list jsstring) (targetDir : jsstring) (s : state) :
  (∃ r, value (lookup host primaryKey restoreKeys s) = Ok r
        ∧ ∀ key, matchedKey r = Some key → key ∈ primaryKey :: restoreKeys)
  ∧ (∃ r, value (restore host paths primaryKey restoreKeys targetDir s) = Ok r
          ∧ ∀ key, restoredKey r = Some key →
              key ∈ primaryKey :: restoreKeys
              ∧ codec_calls
                  (trace (restore host paths primaryKey restoreKeys targetDir s))
                ≠ [])
  ∧ (length (codec_calls
               (trace (restore host paths primaryKey restoreKeys targetDir s)))
     ≤ S (length restoreKeys))%nat.
Proof.
  split; [|split].
  - rewrite lookup_scan. eexists. split; [done|]. intros key.
    unfold report, first_success.
    destruct (_ !! _) as [k|] eqn:Hk; [|done].
    destruct (value <$> _ !! _) as [[[]|]|]; simpl; try done.
    intros [= <-]. by eapply list_elem_of_lookup_2.
  - rewrite restore_scan.
    remember (primaryKey :: restoreKeys) as keys eqn:Hkeys.
    remember (runs (tryRestore host targetDir) keys s) as rs eqn:Hrs.
    eexists. split; [done|]. intros key.
    unfold report, first_success, made, trace.
    destruct (keys !! misses rs) as [k|] eqn:Hk; [|done].
    destruct (rs !! misses rs) as [run|] eqn:Hrun; [|done]. simpl.
    destruct (value run) as [[]|] eqn:Hval; simpl; try done.
    intros [= <-]. split; [by eapply list_elem_of_lookup_2|].
    rewrite (take_S_r _ _ _ Hrun). unfold trace_of.
    rewrite fmap_app, concat_app, codec_calls_app. simpl. rewrite app_nil_r.
    intros [_ H]%app_eq_nil. revert H.
    assert (Hstep : ∃ key' s', run = tryRestore host targetDir key' s').
    { clear -Hrun Hrs. subst rs. revert Hrun.
      generalize (misses (runs (tryRestore host targetDir) keys s)).
      intros n. revert n s. clear.
      induction keys as [|k ks IH]; intros n s0; [done|].
      destruct n; simpl; [intros [= <-]; eauto | apply IH]. }
    destruct Hstep as (key' & s' & ->).
    by apply tryRestore_codec_calls.
  - rewrite restore_scan. unfold made, trace. cbn [snd].
    apply (runs_codec_calls_bound targetDir (primaryKey :: restoreKeys)).
Qed.

End Together.

(** ** The engine on the host of an action *)

Section Lifting.
Context {state : Type} (host : Host state).

Lemma sim_ret {A} (a : A) : sim (state:=state) (ret a) (ret a).
Proof. done. Qed.

Lemma sim_throw {A} (e : Err) : sim (state:=state) (A:=A) (throw e) (throw e).
Proof. done. Qed.

Lemma sim_emit (e : Event) : sim (state:=state) (emit e) (emit e).
Proof. done. Qed.

Lemma sim_bind {A B} (m' : M (state * list CoreCall) A) (m : M state A)
    (k' : A → M (state * list CoreCall) B) (k : A → M state B) :
  sim m' m → (∀ a, sim (k' a) (k a)) → sim (bind m' k') (bind m k).
Proof.
  intros Hm Hk s l. unfold bind. rewrite Hm. unfold lift_run, value, final, trace.
  destruct (m s) as [[[a|e] s1] t1]; simpl; [|done].
  rewrite Hk. by destruct (k a s1) as [[r s2] t2].
Qed.

Lemma sim_try_catch {A} (m' : M (state * list CoreCall) A) (m : M state A)
    (h' : Err → M (state * list CoreCall) A) (h : Err → M state A) :
  sim m' m → (∀ e, sim (h' e) (h e)) → sim (try_catch m' h') (try_catch m h).
Proof.
  intros Hm Hh s l. unfold try_catch. rewrite Hm.
  unfold lift_run, value, final, trace.
  destruct (m s) as [[[a|e] s1] t1]; simpl; [done|].
  rewrite Hh. by destruct (h e s1) as [[r s2] t2].
Qed.

Lemma sim_getenv (name : string) :
  sim (getenv (with_calls host) name) (getenv host name).
Proof. done. Qed.

Lemma sim_existsSync (p : jsstring) :
  sim (existsSync (with_calls host) p) (existsSync host p).
Proof. done. Qed.

Lemma sim_mkdirSync (p : jsstring) :
  sim (mkdirSync (with_calls host) p) (mkdirSync host p).
Proof.
  intros s l. unfold mkdirSync, lift_run, value, final, trace. simpl.
  by destruct (fs_mkdirSync host p s).
Qed.

Lemma sim_accessSync (p : jsstring) :
  sim (accessSync (with_calls host) p) (accessSync host p).
Proof.
  intros s l. unfold accessSync, lift_run, value, final, trace. simpl.
  by destruct (fs_accessSync host p s).
Qed.

Lemma sim_cwd : sim (cwd (with_calls host)) (cwd host).
Proof.
  intros s l. unfold cwd, lift_run, value, final, trace. simpl.
  by destruct (process_cwd host s).
Qed.

Lemma sim_which (tool : jsstring) :
  sim (which (with_calls host) tool) (which host tool).
Proof.
  intros s l. unfold which, lift_run, value, final, trace. simpl.
  by destruct (io_which host tool s).
Qed.

Lemma sim_exec (commandLine : jsstring) (args : list jsstring) :
  sim (exec (with_calls host) commandLine args) (exec host commandLine args).
Proof.
  intros s l. unfold exec, lift_run, value, final, trace. simpl.
  by destruct (exec_exec host commandLine args s).
Qed.

Ltac sim_step :=
  first
    [ apply sim_ret | apply sim_throw | apply sim_emit | apply sim_getenv
    | apply sim_existsSync | apply sim_mkdirSync | apply sim_accessSync
    | apply sim_cwd | apply sim_which | apply sim_exec
    | apply sim_bind | apply sim_try_catch
    | match goal with |- sim (if ?b then _ else _) _ => destruct b end
    | progress intros ].

Lemma sim_getCacheDir : sim (getCacheDir (with_calls host)) (getCacheDir host).
Proof. unfold getCacheDir. repeat sim_step. Qed.

Lemma sim_getCacheFilePath (key : jsstring) :
  sim (getCacheFilePath (with_calls host) key) (getCacheFilePath host key).
Proof. unfold getCacheFilePath. repeat first [apply sim_getCacheDir | sim_step]. Qed.

Lemma sim_cacheExists (key : jsstring) :
  sim (cacheExists (with_calls host) key) (cacheExists host key).
Proof. unfold cacheExists. repeat first [apply sim_getCacheFilePath | sim_step]. Qed.

Lemma sim_decompressWithZstd (archivePath targetDir : jsstring) :
  sim (decompressWithZstd (with_calls host) archivePath targetDir)
    (decompressWithZstd host archivePath targetDir).
Proof. unfold decompressWithZstd. repeat sim_step. Qed.

Lemma sim_lookup_for (keys : list jsstring) :
  sim (lookup_for (with_calls host) keys) (lookup_for host keys).
Proof.
  induction keys as [|k ks IH]; simpl;
    repeat first [apply sim_cacheExists | apply IH | sim_step].
Qed.

Lemma sim_lookup (k : jsstring) (ks : list jsstring) :
  sim (lookup (with_calls host) k ks) (lookup host k ks).
Proof.
  unfold lookup, lookup_try.
  repeat first [apply sim_cacheExists | apply sim_lookup_for | sim_step].
Qed.

Lemma sim_restore_for (keys : list jsstring) (targetDir : jsstring) :
  sim (restore_for (with_calls host) keys targetDir) (restore_for host keys targetDir).
Proof.
  induction keys as [|k ks IH]; simpl;
    repeat first [apply sim_cacheExists | apply sim_getCacheFilePath
                 | apply sim_decompressWithZstd | apply IH | sim_step].
Qed.

Lemma sim_restore (paths : list jsstring) (k : jsstring) (ks : list jsstring)
    (targetDir : jsstring) :
  sim (restore (with_calls host) paths k ks targetDir)
    (restore host paths k ks targetDir).
Proof.
  unfold restore, restore_try.
  repeat first [apply sim_cacheExists | apply sim_getCacheFilePath
               | apply sim_decompressWithZstd | apply sim_restore_for | sim_step].
Qed.

End Lifting.

(** ** The actions *)

Section Actions.
Context {state : Type} (host : Host state) (inputs : ActionInputs).

Lemma lookup_returns (k : jsstring) (ks : list jsstring) (s : state) :
  ∃ v, lookup host k ks s
       = (Ok v, final (lookup host k ks s), trace (lookup host k ks s)).
Proof. rewrite lookup_scan. by eexists. Qed.

Lemma restore_returns (paths : list jsstring) (k : jsstring) (ks : list jsstring)
    (targetDir : jsstring) (s : state) :
  ∃ v, restore host paths k ks targetDir s
       = (Ok v, final (restore host paths k ks targetDir s),
          trace (restore host paths k ks targetDir s)).
Proof. rewrite restore_scan. by eexists. Qed.

Lemma lookup_store_calls (k : jsstring) (ks : list jsstring) (s : state) :
  Forall (λ e, is_store_call e = true) (trace (lookup host k ks s)).
Proof.
  unfold lookup, lookup_try, try_catch, bind.
  pose proof (cacheExists_store_calls host k s) as Hk.
  destruct (cacheExists host k s) as [[[[]|e] s1] t1]; simpl in *;
    rewrite ?app_nil_r; try done.
  pose proof (lookup_for_store_calls host ks s1) as Hks.
  destruct (lookup_for host ks s1) as [[[v|e] s2] t2]; simpl in *;
    rewrite ?app_nil_r; by apply Forall_app.
Qed.

Lemma restore_extracts_into (paths : list jsstring) (k : jsstring)
    (ks : list jsstring) (targetDir : jsstring) (s : state) :
  Forall (extracts_into targetDir) (trace (restore host paths k ks targetDir s)).
Proof.
  rewrite restore_scan. unfold made, trace. cbn [snd].
  apply runs_trace_Forall. intros k' s'. apply tryRestore_extracts_into.
Qed.

(** A key restored without a hit is one of the restore keys. *)
Lemma restore_fallback_key (paths : list jsstring) (k : jsstring)
    (ks : list jsstring) (targetDir : jsstring) (s : state) (r : RestoreResult)
    (x : jsstring) :
  value (restore host paths k ks targetDir s) = Ok r →
  restore_cacheHit r = false → restoredKey r = Some x → x ∈ ks.
Proof.
  rewrite restore_scan.
  remember (runs (tryRestore host targetDir) (k :: ks) s) as rs eqn:Hrs.
  clear Hrs. unfold value. cbn [fst]. intros [= <-].
  unfold report, first_success.
  destruct ((k :: ks) !! misses rs) as [key|] eqn:Hk; [|done].
  destruct (value <$> rs !! misses rs) as [[[]|]|]; simpl; try done.
  destruct (misses rs) as [|n]; [done|]. intros _ [= <-].
  by eapply list_elem_of_lookup_2.
Qed.

Lemma restoreKeysList_resolvePaths (restoreKeys : jsstring) :
  restoreKeysList_of restoreKeys = resolvePaths restoreKeys.
Proof. by destruct restoreKeys. Qed.

Lemma restoreKeysList_nonempty (restoreKeys : jsstring) :
  Forall (λ x, x ≠ []) (restoreKeysList_of restoreKeys).
Proof.
  rewrite restoreKeysList_resolvePaths. unfold resolvePaths.
  apply Forall_forall. by intros x [? _]%list_elem_of_filter.
Qed.

Lemma sim_workspaceDir :
  sim (let! workspace := getenv (with_calls host) "GITHUB_WORKSPACE" in
       match workspace with
       | Some (c :: w) => ret (c :: w)
       | _ => cwd (with_calls host)
       end)
    (workspaceDir host).
Proof.
  unfold workspaceDir. apply sim_bind; [apply sim_getenv|].
  intros [[|c w]|]; first [apply sim_ret | apply sim_cwd].
Qed.

Lemma bind_input {A B} (r : Result A) (a : A)
    (k : A → M (state * list CoreCall) B) (sc : state * list CoreCall) :
  r = Ok a → bind (input r) k sc = k a sc.
Proof. intros ->. unfold bind, input. by destruct (k a sc) as [[r s'] t]. Qed.

Lemma bind_input_throw {A B} (r : Result A) (e : Err)
    (k : A → M (state * list CoreCall) B) (sc : state * list CoreCall) :
  r = Throw e → bind (input r) k sc = (Throw e, sc, []).
Proof. by intros ->. Qed.

Lemma bind_core_call {B} (c : CoreCall) (k : () → M (state * list CoreCall) B)
    (s : state) (l : list CoreCall) :
  bind (core_call c) k (s, l) = k () (s, l ++ [c]).
Proof. unfold bind, core_call. simpl. by destruct (k () _) as [[r s'] t]. Qed.

Lemma bind_run {A B} (m : M (state * list CoreCall) A)
    (k : A → M (state * list CoreCall) B) (sc sc1 : state * list CoreCall)
    (a : A) (t1 : list Event) :
  m sc = (Ok a, sc1, t1) →
  bind m k sc = ((k a sc1).1.1, (k a sc1).1.2, t1 ++ (k a sc1).2).
Proof. intros H. unfold bind. rewrite H. by destruct (k a sc1) as [[r s'] t]. Qed.

Lemma bind_run_throw {A B} (m : M (state * list CoreCall) A)
    (k : A → M (state * list CoreCall) B) (sc sc1 : state * list CoreCall)
    (e : Err) (t1 : list Event) :
  m sc = (Throw e, sc1, t1) → bind m k sc = (Throw e, sc1, t1).
Proof. intros H. unfold bind. by rewrite H. Qed.

Lemma lookup_on_action (k : jsstring) (ks : list jsstring) (s : state)
    (l : list CoreCall) :
  ∃ v, value (lookup host k ks s) = Ok v
       ∧ lookup (with_calls host) k ks (s, l)
         = (Ok v, (final (lookup host k ks s), l), trace (lookup host k ks s)).
Proof.
  destruct (lookup_returns k ks s) as [v Hv]. exists v.
  rewrite (sim_lookup host k ks s l). unfold lift_run. rewrite Hv at 1 2.
  by rewrite Hv at 1.
Qed.

Lemma restore_on_action (paths : list jsstring) (k : jsstring)
    (ks : list jsstring) (targetDir : jsstring) (s : state) (l : list CoreCall) :
  ∃ v, value (restore host paths k ks targetDir s) = Ok v
       ∧ restore (with_calls host) paths k ks targetDir (s, l)
         = (Ok v, (final (restore host paths k ks targetDir s), l),
            trace (restore host paths k ks targetDir s)).
Proof.
  destruct (restore_returns paths k ks targetDir s) as [v Hv]. exists v.
  rewrite (sim_restore host paths k ks targetDir s l). unfold lift_run.
  rewrite Hv at 1 2. by rewrite Hv at 1.
Qed.

(** The run of [restore.ts] in lookup-only mode. *)
Lemma restore_ts_lookup_only (path key restoreKeys : jsstring) (f : bool)
    (s : state) (l : list CoreCall) (v : LookupResult) :
  inputs_read inputs path key restoreKeys f true →
  value (lookup host key (restoreKeysList_of restoreKeys) s) = Ok v →
  restore_ts.run host inputs (s, l)
  = (Ok (),
     (final (lookup host key (restoreKeysList_of restoreKeys) s),
      l ++ [SetOutput "cache-hit" (Boolean_toString (lookup_cacheHit v));
            SetOutput "cache-primary-key" key]
        ++ (if f && negb (lookup_cacheHit v)
            then [SetFailed (js "No matching cache found")] else [])),
     trace (lookup host key (restoreKeysList_of restoreKeys) s)).
Proof.
  intros (Hpath & Hkey & Hrk & Hf & Hlo) Hv.
  unfold restore_ts.run, try_catch.
  rewrite (bind_input _ _ _ _ Hpath), (bind_input _ _ _ _ Hkey),
    (bind_input _ _ _ _ Hrk), (bind_input _ _ _ _ Hf), (bind_input _ _ _ _ Hlo).
  destruct (lookup_on_action key (restoreKeysList_of restoreKeys) s l)
    as (v' & Hv' & Hrun).
  rewrite Hv in Hv'. injection Hv' as <-.
  rewrite (bind_run _ _ _ _ _ _ Hrun), !bind_core_call.
  destruct (f && negb (lookup_cacheHit v)); unfold core_call, ret; simpl;
    rewrite ?app_nil_r, <- ?app_assoc; done.
Qed.

(** The run of [restore.ts] in restore mode. *)
Lemma restore_ts_restore (path key restoreKeys dir : jsstring) (f : bool)
    (s s1 : state) (t1 : list Event) (l : list CoreCall) (v : RestoreResult) :
  inputs_read inputs path key restoreKeys f false →
  workspaceDir host s = (Ok dir, s1, t1) →
  value (restore host (resolvePaths path) key (restoreKeysList_of restoreKeys)
           dir s1) = Ok v →
  restore_ts.run host inputs (s, l)
  = (Ok (),
     (final (restore host (resolvePaths path) key
               (restoreKeysList_of restoreKeys) dir s1),
      l ++ [SetOutput "cache-hit" (Boolean_toString (restore_cacheHit v));
            SetOutput "cache-primary-key" key]
        ++ (if negb (restore_cacheHit v)
               && negb (truthy (default [] (restoredKey v))) && f
            then [SetFailed (js "No matching cache found")] else [])),
     t1 ++ trace (restore host (resolvePaths path) key
                    (restoreKeysList_of restoreKeys) dir s1)).
Proof.
  intros (Hpath & Hkey & Hrk & Hf & Hlo) Hdir Hv.
  unfold restore_ts.run, try_catch.
  rewrite (bind_input _ _ _ _ Hpath), (bind_input _ _ _ _ Hkey),
    (bind_input _ _ _ _ Hrk), (bind_input _ _ _ _ Hf), (bind_input _ _ _ _ Hlo).
  cbv iota.
  assert (Hw : bind (getenv (with_calls host) "GITHUB_WORKSPACE")
                 (λ workspace, match workspace with
                               | Some (c :: w) => ret (c :: w)
                               | _ => cwd (with_calls host)
                               end) (s, l)
               = (Ok dir, (s1, l), t1)).
  { rewrite (sim_workspaceDir s l), Hdir. done. }
  rewrite <- bind_assoc_run, (bind_run _ _ _ _ _ _ Hw).
  destruct (restore_on_action (resolvePaths path) key
              (restoreKeysList_of restoreKeys) dir s1 l) as (v' & Hv' & Hrun).
  rewrite Hv in Hv'. injection Hv' as <-.
  rewrite (bind_run _ _ _ _ _ _ Hrun), !bind_core_call.
  destruct (restore_cacheHit v), (truthy (default [] (restoredKey v))), f;
    unfold core_call, ret; simpl; rewrite ?app_nil_r, <- ?app_assoc; done.
Qed.

Lemma restore_ts_no_workspace (path key restoreKeys : jsstring) (f : bool)
    (e : Err) (s s1 : state) (t1 : list Event) (l : list CoreCall) :
  inputs_read inputs path key restoreKeys f false →
  workspaceDir host s = (Throw e, s1, t1) →
  restore_ts.run host inputs (s, l)
  = (Ok (), (s1, l ++ [SetFailed (js "Action failed: " ++ e)]), t1).
Proof.
  intros (Hpath & Hkey & Hrk & Hf & Hlo) Hdir.
  unfold restore_ts.run, try_catch.
  rewrite (bind_input _ _ _ _ Hpath), (bind_input _ _ _ _ Hkey),
    (bind_input _ _ _ _ Hrk), (bind_input _ _ _ _ Hf), (bind_input _ _ _ _ Hlo).
  cbv iota.
  assert (Hw : bind (getenv (with_calls host) "GITHUB_WORKSPACE")
                 (λ workspace, match workspace with
                               | Some (c :: w) => ret (c :: w)
                               | _ => cwd (with_calls host)
                               end) (s, l)
               = (Throw e, (s1, l), t1)).
  { rewrite (sim_workspaceDir s l), Hdir. done. }
  rewrite <- bind_assoc_run, (bind_run_throw _ _ _ _ _ _ Hw).
  unfold core_call. simpl. by rewrite app_nil_r.
Qed.

(** An input that cannot be read: the failure is all that happens. *)
Lemma restore_ts_input_error (s : state) (l : list CoreCall) :
  input_error inputs →
  ∃ e, restore_ts.run host inputs (s, l)
       = (Ok (), (s, l ++ [SetFailed (js "Action failed: " ++ e)]), []).
Proof.
  unfold restore_ts.run, try_catch, input_error.
  destruct (getInput inputs "path" true) as [path|e].
  2: { intros _. by exists e. }
  rewrite (bind_input _ path _ _ eq_refl).
  destruct (getInput inputs "key" true) as [key|e].
  2: { intros _. by exists e. }
  rewrite (bind_input _ key _ _ eq_refl).
  destruct (getInput inputs "restore-keys" false) as [rk|e].
  2: { intros _. by exists e. }
  rewrite (bind_input _ rk _ _ eq_refl).
  destruct (getBooleanInput inputs "fail-on-cache-miss") as [f|e].
  2: { intros _. by exists e. }
  rewrite (bind_input _ f _ _ eq_refl).
  destruct (getBooleanInput inputs "lookup-only") as [lo|e].
  2: { intros _. by exists e. }
  intros [[e ?]|[[e ?]|[[e ?]|[[e ?]|[e ?]]]]]; done.
Qed.


Lemma restore_hit_key (paths : list jsstring) (k : jsstring) (ks : list jsstring)
    (targetDir : jsstring) (s : state) (r : RestoreResult) :
  value (restore host paths k ks targetDir s) = Ok r →
  restore_cacheHit r = true → restoredKey r = Some k.
Proof.
  rewrite restore_scan. simpl runs. unfold value. cbn [fst]. intros [= <-].
  pose proof (first_success_head k ks (tryRestore host targetDir k s)
                (runs (tryRestore host targetDir) ks
                   (final (tryRestore host targetDir k s)))) as H.
  destruct (first_success _ _) as [[n key]|]; simpl; [|done].
  destruct H as [_ H]. intros Hn. by rewrite (H Hn).
Qed.

(** In [restore.ts] and [main.ts] the test of [restoredKey] for truth is
    the test for a key: no key of the list is the empty string. *)
Lemma restoredKey_truthy (paths : list jsstring) (k restoreKeys targetDir : jsstring)
    (s : state) (r : RestoreResult) :
  value (restore host paths k (restoreKeysList_of restoreKeys) targetDir s) = Ok r →
  negb (restore_cacheHit r) && negb (truthy (default [] (restoredKey r)))
  = bool_decide (restoredKey r = None).
Proof.
  intros Hr. destruct (restore_cacheHit r) eqn:Hhit.
  - rewrite (restore_hit_key _ _ _ _ _ _ Hr Hhit). done.
  - destruct (restoredKey r) as [x|] eqn:Hx; [|done]. simpl.
    pose proof (restore_fallback_key _ _ _ _ _ _ _ Hr Hhit Hx) as Hin.
    pose proof (restoreKeysList_nonempty restoreKeys) as Hne.
    rewrite Forall_forall in Hne. apply Hne in Hin. by destruct x.
Qed.

(** X16. The action [restore.ts] never throws, and what it leaves with the
    runner is a failure and nothing else, or the two outputs [cache-hit],
    which is ["true"] or ["false"], and [cache-primary-key], which is the
    key it was given, followed by at most one failure. *)
Theorem restore_ts_protocol (s : state) (l : list CoreCall) :
  ∃ s' calls t,
    restore_ts.run host inputs (s, l) = (Ok (), (s', l ++ calls), t)
    ∧ match getInput inputs "key" true with
      | Ok key => protocol false key calls
      | Throw _ => ∃ message, calls = [SetFailed message]
      end.
Proof.
  destruct (getInput inputs "path" true) as [path|e] eqn:Hpath.
  2: { destruct (restore_ts_input_error s l) as [e' ->]; [left; eauto|].
       eexists _, _, _. split; [done|]. case_match; [constructor | eauto]. }
  destruct (getInput inputs "key" true) as [key|e] eqn:Hkey.
  2: { destruct (restore_ts_input_error s l) as [e' ->]; [right; left; eauto|].
       eexists _, _, _. split; [done|]. eauto. }
  destruct (getInput inputs "restore-keys" false) as [rk|e] eqn:Hrk.
  2: { destruct (restore_ts_input_error s l) as [e' ->];
         [right; right; left; eauto|].
       eexists _, _, _. split; [done|]. constructor. }
  destruct (getBooleanInput inputs "fail-on-cache-miss") as [f|e] eqn:Hf.
  2: { destruct (restore_ts_input_error s l) as [e' ->];
         [right; right; right; left; eauto|].
       eexists _, _, _. split; [done|]. constructor. }
  destruct (getBooleanInput inputs "lookup-only") as [lo|e] eqn:Hlo.
  2: { destruct (restore_ts_input_error s l) as [e' ->];
         [right; right; right; right; eauto|].
       eexists _, _, _. split; [done|]. constructor. }
  assert (Hin : inputs_read inputs path key rk f lo) by done.
  destruct lo.
  - destruct (lookup_returns key (restoreKeysList_of rk) s) as [v Hv].
    rewrite (restore_ts_lookup_only path key rk f s l v Hin)
      by (by rewrite Hv).
    eexists _, _, _. split; [done|]. constructor.
    destruct (f && negb (lookup_cacheHit v)); eauto.
  - destruct (workspaceDir host s) as [[[dir|e] s1] t1] eqn:Hdir.
    + destruct (restore_returns (resolvePaths path) key (restoreKeysList_of rk)
                  dir s1) as [v Hv].
      rewrite (restore_ts_restore path key rk dir f s s1 t1 l v Hin Hdir)
        by (by rewrite Hv).
      eexists _, _, _. split; [done|]. constructor.
      destruct (_ && _ && f); eauto.
    + rewrite (restore_ts_no_workspace path key rk f e s s1 t1 l Hin Hdir).
      eexists _, _, _. split; [done|]. constructor.
Qed.

(** X17. An action whose inputs cannot all be read does nothing but fail:
    no probe, no directory created, no codec entered, the machine as it
    was, and the one failure ["Action failed: ..."] with the error. *)
Theorem restore_ts_unreadable_inputs (s : state) (l : list CoreCall) :
  input_error inputs →
  ∃ e, restore_ts.run host inputs (s, l)
       = (Ok (), (s, l ++ [SetFailed (js "Action failed: " ++ e)]), []).
Proof. apply restore_ts_input_error. Qed.

(** X18. In lookup-only mode [restore.ts] is a [lookup] with the key and
    the parsed restore keys: the machine ends as [lookup] leaves it, the
    codec is not entered, [cache-hit] is the hit of [lookup], and with
    [fail-on-cache-miss] the step fails whenever the primary key has no
    archive, also when a restore key has one. *)
Theorem restore_ts_lookup_only_outcome (path key restoreKeys : jsstring)
    (f : bool) (s : state) (l : list CoreCall) (v : LookupResult) :
  inputs_read inputs path key restoreKeys f true →
  value (lookup host key (resolvePaths restoreKeys) s) = Ok v →
  let r := restore_ts.run host inputs (s, l) in
  value r = Ok ()
  ∧ (final r).1 = final (lookup host key (resolvePaths restoreKeys) s)
  ∧ codec_calls (trace r) = []
  ∧ calls_of r
    = l ++ [SetOutput "cache-hit" (Boolean_toString (lookup_cacheHit v));
            SetOutput "cache-primary-key" key]
        ++ (if f && negb (lookup_cacheHit v)
            then [SetFailed (js "No matching cache found")] else []).
Proof.
  intros Hin Hv r. unfold r.
  rewrite <- (restoreKeysList_resolvePaths restoreKeys) in *.
  rewrite (restore_ts_lookup_only path key restoreKeys f s l v Hin Hv).
  repeat split. apply store_calls_no_codec, lookup_store_calls.
Qed.

(** X19. In restore mode [restore.ts] is a [restore] into the workspace
    directory with the parsed paths and restore keys: [cache-hit] is the
    hit of [restore], and with [fail-on-cache-miss] the step fails exactly
    when no key at all was restored; a restore key that was restored does
    not fail it. *)
Theorem restore_ts_restore_outcome (path key restoreKeys dir : jsstring)
    (f : bool) (s s1 : state) (t1 : list Event) (l : list CoreCall)
    (v : RestoreResult) :
  inputs_read inputs path key restoreKeys f false →
  workspaceDir host s = (Ok dir, s1, t1) →
  value (restore host (resolvePaths path) key (resolvePaths restoreKeys) dir s1)
  = Ok v →
  let r := restore_ts.run host inputs (s, l) in
  value r = Ok ()
  ∧ (final r).1
    = final (restore host (resolvePaths path) key (resolvePaths restoreKeys) dir s1)
  ∧ Forall (extracts_into dir) (trace r)
  ∧ calls_of r
    = l ++ [SetOutput "cache-hit" (Boolean_toString (restore_cacheHit v));
            SetOutput "cache-primary-key" key]
        ++ (if f && bool_decide (restoredKey v = None)
            then [SetFailed (js "No matching cache found")] else []).
Proof.
  intros Hin Hdir Hv r. unfold r.
  rewrite <- (restoreKeysList_resolvePaths restoreKeys) in *.
  rewrite (restore_ts_restore path key restoreKeys dir f s s1 t1 l v Hin Hdir Hv).
  rewrite (restoredKey_truthy _ _ _ _ _ _ Hv).
  repeat split.
  - unfold trace. cbn [snd]. apply Forall_app. split.
    + revert Hdir. unfold workspaceDir, bind, getenv, ret, cwd.
      destruct (env host s "GITHUB_WORKSPACE") as [[|c w]|]; simpl.
      * destruct (process_cwd host s) as [[d|e'] s']; intros [= <- <- <-].
        by repeat constructor.
      * intros [= <- <- <-]. constructor.
      * destruct (process_cwd host s) as [[d|e'] s']; intros [= <- <- <-].
        by repeat constructor.
    + apply restore_extracts_into.
  - unfold calls_of, final. cbn [fst snd]. by rewrite andb_comm.
Qed.

End Actions.

Section MainAction.
Context {state : Type} (host : Host state) (inputs : ActionInputs).
Context {number : Type} (parseInt : jsstring → Z → number).
Context (Number_toString : number → jsstring).

(** X20. In lookup-only mode [main.ts] and [restore.ts] are the same run:
    the same calls into the machine, the same outputs, the same failure. *)
Theorem main_ts_lookup_only_as_restore_ts (level : jsstring) (s : state)
    (l : list CoreCall) :
  getInput inputs "compression-level" false = Ok level →
  getBooleanInput inputs "lookup-only" = Ok true →
  main_ts.run host inputs parseInt Number_toString (s, l)
  = restore_ts.run host inputs (s, l).
Proof.
  intros Hlevel Hlo. unfold main_ts.run, restore_ts.run, try_catch.
  destruct (getInput inputs "path" true) as [path|e]; [|done].
  rewrite !(bind_input _ path _ _ eq_refl).
  destruct (getInput inputs "key" true) as [key|e]; [|done].
  rewrite !(bind_input _ key _ _ eq_refl).
  destruct (getInput inputs "restore-keys" false) as [rk|e]; [|done].
  rewrite !(bind_input _ rk _ _ eq_refl).
  rewrite (bind_input _ _ _ _ Hlevel).
  destruct (getBooleanInput inputs "fail-on-cache-miss") as [f|e]; [|done].
  rewrite !(bind_input _ f _ _ eq_refl).
  by rewrite !(bind_input _ _ _ _ Hlo).
Qed.

Lemma main_ts_restore (path key restoreKeys level : jsstring) (f : bool)
    (s : state) (l : list CoreCall) (v : RestoreResult) :
  inputs_read inputs path key restoreKeys f false →
  getInput inputs "compression-level" false = Ok level →
  value (restore host (resolvePaths path) key (restoreKeysList_of restoreKeys)
           (js "/") s) = Ok v →
  main_ts.run host inputs parseInt Number_toString (s, l)
  = (Ok (),
     (final (restore host (resolvePaths path) key
               (restoreKeysList_of restoreKeys) (js "/") s),
      l ++ [SetOutput "cache-hit" (Boolean_toString (restore_cacheHit v));
            SetOutput "cache-primary-key" key]
        ++ (if negb (restore_cacheHit v)
               && negb (truthy (default [] (restoredKey v)))
            then if f then [SetFailed (js "No matching cache found")]
                 else [SaveState "CACHE_KEY" key; SaveState "CACHE_PATH" path;
                       SaveState "CACHE_COMPRESSION_LEVEL"
                         (Number_toString
                            (parseInt (or_else (Some level) (js "3")) 10%Z))]
            else [])),
     trace (restore host (resolvePaths path) key
              (restoreKeysList_of restoreKeys) (js "/") s)).
Proof.
  intros (Hpath & Hkey & Hrk & Hf & Hlo) Hlevel Hv.
  unfold main_ts.run, try_catch.
  rewrite (bind_input _ _ _ _ Hpath), (bind_input _ _ _ _ Hkey),
    (bind_input _ _ _ _ Hrk), (bind_input _ _ _ _ Hlevel),
    (bind_input _ _ _ _ Hf), (bind_input _ _ _ _ Hlo).
  cbv iota.
  destruct (restore_on_action host (resolvePaths path) key
              (restoreKeysList_of restoreKeys) (js "/") s l) as (v' & Hv' & Hrun).
  rewrite Hv in Hv'. injection Hv' as <-.
  rewrite (bind_run _ _ _ _ _ _ Hrun), !bind_core_call.
  destruct (restore_cacheHit v), (truthy (default [] (restoredKey v))), f;
    rewrite ?bind_core_call; unfold core_call, ret; simpl;
    rewrite ?app_nil_r, <- ?app_assoc; done.
Qed.

(** X21. In restore mode [main.ts] is a [restore] into ["/"] with the
    parsed paths and restore keys. When no key at all was restored it
    either fails, with [fail-on-cache-miss], or registers the post-save by
    saving the key, the path input as it was given, and the compression
    level; when any key was restored it does neither. *)
Theorem main_ts_restore_outcome (path key restoreKeys level : jsstring)
    (f : bool) (s : state) (l : list CoreCall) (v : RestoreResult) :
  inputs_read inputs path key restoreKeys f false →
  getInput inputs "compression-level" false = Ok level →
  value (restore host (resolvePaths path) key (resolvePaths restoreKeys)
           (js "/") s) = Ok v →
  let r := main_ts.run host inputs parseInt Number_toString (s, l) in
  value r = Ok ()
  ∧ (final r).1
    = final (restore host (resolvePaths path) key (resolvePaths restoreKeys)
               (js "/") s)
  ∧ calls_of r
    = l ++ [SetOutput "cache-hit" (Boolean_toString (restore_cacheHit v));
            SetOutput "cache-primary-key" key]
        ++ (if bool_decide (restoredKey v = None)
            then if f then [SetFailed (js "No matching cache found")]
                 else [SaveState "CACHE_KEY" key; SaveState "CACHE_PATH" path;
                       SaveState "CACHE_COMPRESSION_LEVEL"
                         (Number_toString
                            (parseInt (or_else (Some level) (js "3")) 10%Z))]
            else []).
Proof.
  intros Hin Hlevel Hv r. unfold r.
  rewrite <- (restoreKeysList_resolvePaths restoreKeys) in *.
  rewrite (main_ts_restore path key restoreKeys level f s l v Hin Hlevel Hv).
  by rewrite (restoredKey_truthy _ _ _ _ _ _ _ Hv).
Qed.

(** X22. Whatever its inputs, [main.ts] compresses nothing, and every
    decompression it starts extracts into ["/"]: it calls [restore]
    without a target directory. *)
Theorem main_ts_extracts_into_root (s : state) (l : list CoreCall) :
  Forall (extracts_into (js "/"))
    (trace (main_ts.run host inputs parseInt Number_toString (s, l))).
Proof.
  unfold main_ts.run, try_catch.
  destruct (getInput inputs "path" true) as [path|e]; [|constructor].
  rewrite (bind_input _ path _ _ eq_refl).
  destruct (getInput inputs "key" true) as [key|e]; [|constructor].
  rewrite (bind_input _ key _ _ eq_refl).
  destruct (getInput inputs "restore-keys" false) as [rk|e]; [|constructor].
  rewrite (bind_input _ rk _ _ eq_refl).
  destruct (getInput inputs "compression-level" false) as [level|e]; [|constructor].
  rewrite (bind_input _ level _ _ eq_refl).
  destruct (getBooleanInput inputs "fail-on-cache-miss") as [f|e]; [|constructor].
  rewrite (bind_input _ f _ _ eq_refl).
  destruct (getBooleanInput inputs "lookup-only") as [[]|e]; [| |constructor].
  - rewrite (bind_input _ true _ _ eq_refl). cbv iota.
    destruct (lookup_on_action host key (restoreKeysList_of rk) s l)
      as (v & Hv & Hrun).
    rewrite (bind_run _ _ _ _ _ _ Hrun), !bind_core_call.
    assert (Ht : Forall (extracts_into (js "/"))
                   (trace (lookup host key (restoreKeysList_of rk) s))).
    { apply store_call_extracts_into, lookup_store_calls. }
    destruct (f && negb (lookup_cacheHit v)); unfold core_call, ret, trace in *;
      simpl; by rewrite app_nil_r.
  - rewrite (bind_input _ false _ _ eq_refl). cbv iota.
    destruct (restore_on_action host (resolvePaths path) key
                (restoreKeysList_of rk) (js "/") s l) as (v & Hv & Hrun).
    rewrite (bind_run _ _ _ _ _ _ Hrun), !bind_core_call.
    pose proof (restore_extracts_into host (resolvePaths path) key
                  (restoreKeysList_of rk) (js "/") s) as Ht.
    destruct (restore_cacheHit v), (truthy (default [] (restoredKey v))), f;
      rewrite ?bind_core_call; unfold core_call, ret, trace in *;
      simpl; by rewrite app_nil_r.
Qed.

End MainAction.

(** ** Runs on the simulated machine, continued *)

Lemma archive_shared_iff_same_safeKey_witness :
  value (getCacheDir Sim.host Sim.warm) = Ok (js "/home/ci/.local-cache")
  ∧ value (getCacheFilePath Sim.host (js "a-b") Sim.warm)
    = value (getCacheFilePath Sim.host (js "a/b") Sim.warm).
Proof.
  split; [reflexivity|].
  destruct (archive_shared_iff_same_safeKey Sim.host (js "a-b") (js "a/b")
              (js "/home/ci/.local-cache") Sim.warm eq_refl) as [[_ H] _].
  apply H. reflexivity.
Defined.

Lemma codec_without_tools_witness :
  tool_missing Sim.host bare
  = Some (bare, [EvWhich (js "tar"); EvWhich (js "zstd")])
  ∧ value (compressWithZstd Sim.host (js "/home/ci/.local-cache/k.tar.zst")
             [js "/work"] 3 bare) = Ok false
  ∧ final (decompressWithZstd Sim.host (js "/home/ci/.local-cache/a.tar.zst")
             (js "/work") bare) = bare.
Proof.
  split; [reflexivity|].
  destruct (codec_without_tools Sim.host (js "/home/ci/.local-cache/k.tar.zst")
              [js "/work"] 3 (js "/work") bare bare _ eq_refl) as [-> _].
  destruct (codec_without_tools Sim.host (js "/home/ci/.local-cache/a.tar.zst")
              [js "/work"] 3 (js "/work") bare bare _ eq_refl) as [_ ->].
  split; reflexivity.
Defined.

Lemma decompress_missing_archive_witness :
  tools_found Sim.host Sim.warm = Some (js "/usr/bin/zstd", Sim.warm)
  ∧ fs_existsSync Sim.host (js "/home/ci/.local-cache/zz.tar.zst") Sim.warm = false
  ∧ value (decompressWithZstd Sim.host (js "/home/ci/.local-cache/zz.tar.zst")
             (js "/work/out") Sim.warm) = Ok false.
Proof.
  split; [reflexivity|]. split; [reflexivity|].
  by rewrite (decompress_missing_archive Sim.host
                (js "/home/ci/.local-cache/zz.tar.zst") (js "/work/out")
                (js "/usr/bin/zstd") Sim.warm Sim.warm eq_refl eq_refl).
Defined.

Lemma decompress_true_tar_ok_witness :
  value (decompressWithZstd Sim.host (js "/home/ci/.local-cache/b.tar.zst")
           (js "/work") Sim.warm) = Ok true
  ∧ ∃ zstdPath dir s_before,
      exec_exec Sim.host (js "tar")
        (extractArgs zstdPath (js "/home/ci/.local-cache/b.tar.zst") dir) s_before
      = (Ok 0%Z,
         final (decompressWithZstd Sim.host (js "/home/ci/.local-cache/b.tar.zst")
                  (js "/work") Sim.warm)).
Proof.
  split; [reflexivity|].
  destruct (decompress_true_tar_ok Sim.host (js "/home/ci/.local-cache/b.tar.zst")
              (js "/work") Sim.warm eq_refl) as (zstdPath & dir & s0 & _ & H).
  by exists zstdPath, dir, s0.
Defined.

Lemma decompress_unwritable_target_witness :
  tools_found Sim.host sealed = Some (js "/usr/bin/zstd", sealed)
  ∧ fs_existsSync Sim.host (js "/ro") sealed = true
  ∧ fs_accessSync Sim.host (js "/ro") sealed
    = (Throw (js "EACCES: permission denied, access"), sealed)
  ∧ decompressWithZstd Sim.host (js "/home/ci/.local-cache/b.tar.zst") (js "/ro")
      sealed
    = (Ok true, sealed,
       [EvDecompress (js "/home/ci/.local-cache/b.tar.zst") (js "/ro");
        EvWhich (js "tar"); EvWhich (js "zstd");
        EvExistsSync (js "/home/ci/.local-cache/b.tar.zst");
        EvExistsSync (js "/ro"); EvAccessSync (js "/ro");
        EvExec (js "tar")
          (extractArgs (js "/usr/bin/zstd") (js "/home/ci/.local-cache/b.tar.zst")
             (js "/runner/tmp"))]).
Proof.
  split; [reflexivity|]. split; [reflexivity|]. split; [reflexivity|].
  by rewrite (decompress_unwritable_target Sim.host
                (js "/home/ci/.local-cache/b.tar.zst") (js "/ro")
                (js "/usr/bin/zstd") _ sealed sealed sealed
                eq_refl eq_refl eq_refl eq_refl).
Defined.

Lemma decompress_uncreatable_target_witness :
  fs_existsSync Sim.host (js "/ro") Sim.warm = false
  ∧ fs_mkdirSync Sim.host (js "/ro") Sim.warm
    = (Throw (js "EACCES: permission denied, mkdir"), Sim.warm)
  ∧ decompressWithZstd Sim.host (js "/home/ci/.local-cache/b.tar.zst") (js "/ro")
      Sim.warm
    = (Ok true, Sim.warm,
       [EvDecompress (js "/home/ci/.local-cache/b.tar.zst") (js "/ro");
        EvWhich (js "tar"); EvWhich (js "zstd");
        EvExistsSync (js "/home/ci/.local-cache/b.tar.zst");
        EvExistsSync (js "/ro"); EvMkdirSync (js "/ro"); EvCwd;
        EvAccessSync (js "/work");
        EvExec (js "tar")
          (extractArgs (js "/usr/bin/zstd") (js "/home/ci/.local-cache/b.tar.zst")
             (js "/work"))]).
Proof.
  split; [reflexivity|]. split; [reflexivity|].
  by rewrite (decompress_uncreatable_target Sim.host
                (js "/home/ci/.local-cache/b.tar.zst") (js "/ro")
                (js "/usr/bin/zstd") (js "/work") _
                Sim.warm Sim.warm Sim.warm Sim.warm Sim.warm
                eq_refl eq_refl eq_refl eq_refl eq_refl eq_refl).
Defined.

(** On the warm runner both codec functions succeed on the archive of
    [b]: the tools are found and the archive is there. *)
Lemma codec_failures_give_false_witness :
  value (compressWithZstd Sim.host (js "/home/ci/.local-cache/b.tar.zst")
           [js "/work/node_modules"] 3%float Sim.warm) = Ok true
  ∧ value (decompressWithZstd Sim.host (js "/home/ci/.local-cache/b.tar.zst")
             (js "/work") Sim.warm) = Ok true
  ∧ ∃ zstdPath s2,
      tools_found Sim.host Sim.warm = Some (zstdPath, s2)
      ∧ fs_existsSync Sim.host (js "/home/ci/.local-cache/b.tar.zst") s2 = true.
Proof.
  split; [reflexivity|]. split; [reflexivity|].
  destruct (codec_failures_give_false Sim.host
              (js "/home/ci/.local-cache/b.tar.zst") [js "/work/node_modules"]
              3%float (js "/work") Sim.warm) as (_ & _ & _ & Hd).
  destruct (Hd eq_refl) as (zstdPath & s2 & Htools & Harchive & _).
  by exists zstdPath, s2.
Defined.

Lemma compress_true_tar_ok_witness :
  value (compressWithZstd Sim.host (js "/home/ci/.local-cache/k.tar.zst")
           [js "/work/node_modules"] 3%float Sim.warm) = Ok true
  ∧ ∃ zstdPath s_before,
      exec_exec Sim.host (js "tar")
        (createArgs Sim.host zstdPath 3 (js "/home/ci/.local-cache/k.tar.zst")
           [js "/work/node_modules"]) s_before
      = (Ok 0%Z,
         final (compressWithZstd Sim.host (js "/home/ci/.local-cache/k.tar.zst")
                  [js "/work/node_modules"] 3%float Sim.warm)).
Proof.
  split; [reflexivity|].
  destruct (compress_true_tar_ok Sim.host (js "/home/ci/.local-cache/k.tar.zst")
              [js "/work/node_modules"] 3%float Sim.warm eq_refl)
    as (zstdPath & s0 & _ & H).
  by exists zstdPath, s0.
Defined.

Lemma compress_uncreatable_directory_witness :
  fs_existsSync Sim.host (path.dirname (js "/ro/cache/k.tar.zst")) Sim.locked = false
  ∧ value (compressWithZstd Sim.host (js "/ro/cache/k.tar.zst")
             [js "/work/node_modules"] 3%float Sim.locked) = Ok false.
Proof.
  split; [reflexivity|].
  by rewrite (compress_uncreatable_directory Sim.host (js "/ro/cache/k.tar.zst")
                (js "/usr/bin/zstd") [js "/work/node_modules"] 3 _
                Sim.locked Sim.locked Sim.locked eq_refl eq_refl eq_refl).
Defined.

Lemma restore_hit_is_lookup_hit_witness :
  value (restore Sim.host [] (js "b") [js "a"] (js "/work") Sim.warm)
  = Ok (mkRestoreResult true (Some (js "b")))
  ∧ value (lookup Sim.host (js "b") [js "a"] Sim.warm)
    = Ok (mkLookupResult true (Some (js "b"))).
Proof.
  split; [reflexivity|].
  exact (restore_hit_is_lookup_hit Sim.host [] (js "b") [js "a"] (js "/work")
           Sim.warm _ eq_refl eq_refl).
Defined.

Lemma restore_after_empty_lookup_witness :
  value (lookup Sim.host (js "x") [js "y"; js "z"] Sim.fresh)
  = Ok (mkLookupResult false None)
  ∧ codec_calls
      (trace (restore Sim.host [js "p"] (js "x") [js "y"; js "z"] (js "/tmp/out")
                Sim.fresh)) = [].
Proof.
  split; [reflexivity|].
  exact (proj2 (restore_after_empty_lookup Sim.host [js "p"] (js "x")
                  [js "y"; js "z"] (js "/tmp/out") Sim.fresh _ eq_refl eq_refl)).
Defined.

Lemma restore_ts_unreadable_inputs_witness :
  input_error unreadable_inputs
  ∧ ∃ e, restore_ts.run Sim.host unreadable_inputs (Sim.warm, [])
         = (Ok (), (Sim.warm, [SetFailed (js "Action failed: " ++ e)]), []).
Proof.
  assert (H : input_error unreadable_inputs).
  { right. right. right. left. by eexists. }
  split; [exact H|].
  exact (restore_ts_unreadable_inputs Sim.host unreadable_inputs Sim.warm [] H).
Defined.

(** Only the restore key [b] has an archive: with [fail-on-cache-miss] the
    lookup-only step fails ... *)
Lemma restore_ts_lookup_only_outcome_witness :
  inputs_read (example_inputs true true) (js "node_modules") (js "k") (js "zz
b") true true
  ∧ value (lookup Sim.host (js "k") (resolvePaths (js "zz
b")) Sim.warm)
    = Ok (mkLookupResult false (Some (js "b")))
  ∧ calls_of (restore_ts.run Sim.host (example_inputs true true) (Sim.warm, []))
    = [SetOutput "cache-hit" (js "false"); SetOutput "cache-primary-key" (js "k");
       SetFailed (js "No matching cache found")].
Proof.
  assert (H : inputs_read (example_inputs true true) (js "node_modules") (js "k")
                (js "zz
b") true true) by done.
  split; [exact H|]. split; [reflexivity|].
  destruct (restore_ts_lookup_only_outcome Sim.host (example_inputs true true)
              (js "node_modules") (js "k") (js "zz
b") true Sim.warm [] _ H eq_refl) as (_ & _ & _ & ->).
  reflexivity.
Defined.

(** ... and the restoring step, which restores [b], does not. *)
Lemma restore_ts_restore_outcome_witness :
  inputs_read (example_inputs false true) (js "node_modules") (js "k") (js "zz
b") true false
  ∧ workspaceDir Sim.host Sim.warm = (Ok (js "/work"), Sim.warm, [EvCwd])
  ∧ calls_of (restore_ts.run Sim.host (example_inputs false true) (Sim.warm, []))
    = [SetOutput "cache-hit" (js "false"); SetOutput "cache-primary-key" (js "k")].
Proof.
  assert (H : inputs_read (example_inputs false true) (js "node_modules") (js "k")
                (js "zz
b") true false) by done.
  split; [exact H|]. split; [reflexivity|].
  destruct (restore_ts_restore_outcome Sim.host (example_inputs false true)
              (js "node_modules") (js "k") (js "zz
b") (js "/work") true Sim.warm Sim.warm [EvCwd] [] _ H eq_refl eq_refl)
    as (_ & _ & _ & ->).
  reflexivity.
Defined.

Lemma main_ts_lookup_only_as_restore_ts_witness :
  getBooleanInput (example_inputs true false) "lookup-only" = Ok true
  ∧ main_ts.run Sim.host (example_inputs true false) (λ _ _, 3%float) Number.toString
      (Sim.warm, [])
    = restore_ts.run Sim.host (example_inputs true false) (Sim.warm, []).
Proof.
  split; [reflexivity|].
  exact (main_ts_lookup_only_as_restore_ts Sim.host (example_inputs true false)
           (λ _ _, 3%float) Number.toString [] Sim.warm [] eq_refl eq_refl).
Defined.

(** Nothing to restore on a fresh runner: the post-save is registered. *)
Lemma main_ts_restore_outcome_witness :
  inputs_read (example_inputs false false) (js "node_modules") (js "k") (js "zz
b") false false
  ∧ calls_of (main_ts.run Sim.host (example_inputs false false) (λ _ _, 3%float)
                Number.toString (Sim.fresh, []))
    = [SetOutput "cache-hit" (js "false"); SetOutput "cache-primary-key" (js "k");
       SaveState "CACHE_KEY" (js "k"); SaveState "CACHE_PATH" (js "node_modules");
       SaveState "CACHE_COMPRESSION_LEVEL" (js "3")].
Proof.
  assert (H : inputs_read (example_inputs false false) (js "node_modules") (js "k")
                (js "zz
b") false false) by done.
  split; [exact H|].
  destruct (main_ts_restore_outcome Sim.host (example_inputs false false)
              (λ _ _, 3%float) Number.toString (js "node_modules") (js "k") (js "zz
b") [] false Sim.fresh [] _ H eq_refl eq_refl) as (_ & _ & ->).
  reflexivity.
Defined.
